(** * The in-memory account store of fxa-auth-db-mysql (lib/db/mem.js)

    A shallow embedding of the store and of its operations, followed by the
    properties of the store's specification, stated on the embedding.

    Conventions of the embedding.
    - The nine module-level objects used as tables are finite maps keyed by
      strings ([gmap string _]) that hold the objects' own properties.  A
      lookup that finds no own property falls through to [Object.prototype]
      ([inherited]); this matters for the three tables whose keys are
      arbitrary strings (the two indices and the unlock codes).  The
      hexadecimal rendering of a Buffer never names an inherited property
      ([hex_not_inherited]), so the tables keyed by it are read with the map
      lookup alone.
    - Account objects are passed and stored by reference: [objects] holds the
      account objects in the order the callers build them, the address of an
      object is its position, and the accounts table holds addresses.  In
      the stores the module can be in, every address of the table names an
      object ([reachable_addresses]).  The other rows are objects the module
      builds itself and never shares.
    - Identifiers (uid, token ids, device ids) are Node Buffers, modelled as
      lists of bytes; [hex] is [Buffer.prototype.toString('hex')].
    - Rows are JavaScript objects of a fixed shape, modelled as records.  A
      field that holds an opaque payload is a [value]; a field on which the
      code calls [toString('hex')] is a [Buffer]; a field that may be
      [undefined]/[null] where the code only tests it for truthiness is an
      [option].
    - Every operation runs to completion before the next one starts, so a
      promise is modelled by the result it settles with, together with the
      store it leaves behind; an exception thrown in a callback rejects the
      promise and keeps the writes made before it.
    - Callers may pass an object again.  For the account payloads this is
      modelled, because [createAccount] writes onto its payload and stores it
      by reference.  The other payloads are read field by field, so they are
      taken by value, as the content of the caller's object at the time of
      the call; a device object handed out by [accountDevices] is not passed
      back as the payload of another device.  Callers do not write to the
      objects of the store themselves. *)

From Stdlib Require Import ZArith NArith Strings.Byte Ascii String List.
From stdpp Require Import base option gmap strings list fin_maps.

Local Open Scope string_scope.

(** ** Buffers and their hexadecimal rendering *)

Definition Buffer := list byte.

Definition hex_digit (n : N) : ascii :=
  match n with
  | 0 => "0" | 1 => "1" | 2 => "2" | 3 => "3" | 4 => "4" | 5 => "5"
  | 6 => "6" | 7 => "7" | 8 => "8" | 9 => "9" | 10 => "a" | 11 => "b"
  | 12 => "c" | 13 => "d" | 14 => "e" | _ => "f"
  end%N%char.

Definition hex_pair (b : byte) : ascii * ascii :=
  (hex_digit (Byte.to_N b / 16), hex_digit (Byte.to_N b mod 16)).

Fixpoint hex (b : Buffer) : string :=
  match b with
  | [] => EmptyString
  | x :: rest => String (fst (hex_pair x)) (String (snd (hex_pair x)) (hex rest))
  end.

(** The inverse of [hex_digit], used only to show that [hex] is injective. *)
Definition unhex_digit (c : ascii) : N :=
  let n := N_of_ascii c in
  (if n <? 58 then n - 48 else n - 87)%N.

Definition unhex_pair (p : ascii * ascii) : option byte :=
  Byte.of_N (16 * unhex_digit (fst p) + unhex_digit (snd p)).

(** ** JavaScript values held in opaque fields *)

Inductive value :=
| VUndefined
| VNull
| VBool (b : bool)
| VNum (n : Z)
| VStr (s : string)
| VBuf (b : Buffer).

(** [if (v)], [v || w]: JavaScript truthiness. *)
Definition truthy (v : value) : bool :=
  match v with
  | VUndefined | VNull => false
  | VBool b => b
  | VNum n => negb (n =? 0)%Z
  | VStr s => negb (String.eqb s "")
  | VBuf _ => true
  end.

(** [v || null] *)
Definition or_null (v : value) : value := if truthy v then v else VNull.

(** Truthiness of a string, as in [if (uidByNormalizedEmail[k])]. *)
Definition str_truthy (s : string) : bool := negb (String.eqb s "").

(** ** Rows *)

(** The six SESSION_FIELDS, kept together: a session token carries them and a
    device mirrors them. *)
Record SessionFields := mkSessionFields {
  uaBrowser : value;
  uaBrowserVersion : value;
  uaOS : value;
  uaOSVersion : value;
  uaDeviceType : value;
  lastAccessTime : value
}.

Record SessionToken := mkSessionToken {
  st_data : value;
  st_uid : Buffer;
  st_createdAt : value;
  st_fields : SessionFields;
  (* undefined until a device is bound, null after an unlink: both [None] *)
  st_deviceKey : option string
}.

Record KeyFetchToken := mkKeyFetchToken {
  kf_authKey : value;
  kf_uid : Buffer;
  kf_keyBundle : value;
  kf_createdAt : value
}.

Record PasswordForgotToken := mkPasswordForgotToken {
  pf_tokenData : value;
  pf_uid : Buffer;
  pf_passCode : value;
  pf_tries : value;
  pf_createdAt : value
}.

Record PasswordChangeToken := mkPasswordChangeToken {
  pc_tokenData : value;
  pc_uid : Buffer;
  pc_createdAt : value
}.

Record AccountResetToken := mkAccountResetToken {
  ar_tokenData : value;
  ar_uid : Buffer;
  ar_createdAt : value
}.

Record UnlockCode := mkUnlockCode {
  uc_uid : Buffer;
  uc_unlockCode : value
}.

Record Device := mkDevice {
  dev_uid : Buffer;
  dev_id : Buffer;
  (* DEVICE_FIELDS *)
  dev_sessionTokenId : option Buffer;
  dev_name : value;
  dev_type : value;
  dev_createdAt : value;
  dev_callbackURL : value;
  dev_callbackPublicKey : value;
  (* SESSION_FIELDS mirrored from the bound session token *)
  dev_fields : SessionFields
}.

Record Account := mkAccount {
  normalizedEmail : string;
  email : value;
  (* [None]: the property is absent (undefined) *)
  openId : option string;
  (* [None]: the property is absent, as in a filtered view *)
  verifyHash : option Buffer;
  authSalt : value;
  wrapWrapKb : value;
  verifierSetAt : value;
  verifierVersion : value;
  emailVerified : value;
  emailCode : value;
  locale : value;
  createdAt : value;
  lockedAt : value;
  devices : gmap string Device
}.

(** ** The store: the account objects and the module-level tables *)

(** The address of an account object: its position in [objects]. *)
Abbreviation Ref := nat (only parsing).

Record Store := mkStore {
  (* the account objects the callers have built, stored or not *)
  objects : list Account;
  (* [accounts[uid] = data] stores the caller's object itself *)
  accounts : gmap string Ref;
  uidByNormalizedEmail : gmap string string;
  uidByOpenId : gmap string string;
  sessionTokens : gmap string SessionToken;
  keyFetchTokens : gmap string KeyFetchToken;
  accountResetTokens : gmap string AccountResetToken;
  passwordChangeTokens : gmap string PasswordChangeToken;
  passwordForgotTokens : gmap string PasswordForgotToken;
  accountUnlockCodes : gmap string UnlockCode;
  (* the prototype of [accountUnlockCodes] once an assignment to its
     [__proto__] has replaced [Object.prototype] ([None] until then) *)
  unlockCodesPrototype : option UnlockCode
}.

Definition empty_store : Store := mkStore [] ∅ ∅ ∅ ∅ ∅ ∅ ∅ ∅ ∅ None.

(** ** Results *)

Inductive Error :=
| NotFound
| Duplicate
| IncorrectPassword
(* a runtime TypeError ("cannot read property of undefined") *)
| TypeError.

Inductive Result (A : Type) :=
| Resolve (a : A)
| Reject (e : Error).
Arguments Resolve {A} a.
Arguments Reject {A} e.

(** ** Field updates *)

Definition st_set_deviceKey (k : option string) (t : SessionToken) : SessionToken :=
  mkSessionToken (st_data t) (st_uid t) (st_createdAt t) (st_fields t) k.

Definition st_set_fields (f : SessionFields) (t : SessionToken) : SessionToken :=
  mkSessionToken (st_data t) (st_uid t) (st_createdAt t) f (st_deviceKey t).

Definition pf_set_tries (v : value) (t : PasswordForgotToken) : PasswordForgotToken :=
  mkPasswordForgotToken (pf_tokenData t) (pf_uid t) (pf_passCode t) v (pf_createdAt t).

Definition dev_set_fields (f : SessionFields) (d : Device) : Device :=
  mkDevice (dev_uid d) (dev_id d) (dev_sessionTokenId d) (dev_name d) (dev_type d)
    (dev_createdAt d) (dev_callbackURL d) (dev_callbackPublicKey d) f.

Definition acct_set_devices (ds : gmap string Device) (a : Account) : Account :=
  mkAccount (normalizedEmail a) (email a) (openId a) (verifyHash a) (authSalt a)
    (wrapWrapKb a) (verifierSetAt a) (verifierVersion a) (emailVerified a)
    (emailCode a) (locale a) (createdAt a) (lockedAt a) ds.

Definition acct_set_lockedAt (v : value) (a : Account) : Account :=
  mkAccount (normalizedEmail a) (email a) (openId a) (verifyHash a) (authSalt a)
    (wrapWrapKb a) (verifierSetAt a) (verifierVersion a) (emailVerified a)
    (emailCode a) (locale a) (createdAt a) v (devices a).

Definition acct_set_emailVerified (v : value) (a : Account) : Account :=
  mkAccount (normalizedEmail a) (email a) (openId a) (verifyHash a) (authSalt a)
    (wrapWrapKb a) (verifierSetAt a) (verifierVersion a) v
    (emailCode a) (locale a) (createdAt a) (lockedAt a) (devices a).

Definition acct_set_locale (v : value) (a : Account) : Account :=
  mkAccount (normalizedEmail a) (email a) (openId a) (verifyHash a) (authSalt a)
    (wrapWrapKb a) (verifierSetAt a) (verifierVersion a) (emailVerified a)
    (emailCode a) v (createdAt a) (lockedAt a) (devices a).

Definition acct_set_verifyHash (h : option Buffer) (a : Account) : Account :=
  mkAccount (normalizedEmail a) (email a) (openId a) h (authSalt a)
    (wrapWrapKb a) (verifierSetAt a) (verifierVersion a) (emailVerified a)
    (emailCode a) (locale a) (createdAt a) (lockedAt a) (devices a).

Definition set_objects (m : list Account) (s : Store) : Store :=
  mkStore m (accounts s) (uidByNormalizedEmail s) (uidByOpenId s)
    (sessionTokens s) (keyFetchTokens s) (accountResetTokens s) (passwordChangeTokens s)
    (passwordForgotTokens s) (accountUnlockCodes s) (unlockCodesPrototype s).

Definition set_accounts (m : gmap string Ref) (s : Store) : Store :=
  mkStore (objects s) m (uidByNormalizedEmail s) (uidByOpenId s)
    (sessionTokens s) (keyFetchTokens s) (accountResetTokens s) (passwordChangeTokens s)
    (passwordForgotTokens s) (accountUnlockCodes s) (unlockCodesPrototype s).

Definition set_uidByNormalizedEmail (m : gmap string string) (s : Store) : Store :=
  mkStore (objects s) (accounts s) m (uidByOpenId s)
    (sessionTokens s) (keyFetchTokens s) (accountResetTokens s) (passwordChangeTokens s)
    (passwordForgotTokens s) (accountUnlockCodes s) (unlockCodesPrototype s).

Definition set_uidByOpenId (m : gmap string string) (s : Store) : Store :=
  mkStore (objects s) (accounts s) (uidByNormalizedEmail s) m
    (sessionTokens s) (keyFetchTokens s) (accountResetTokens s) (passwordChangeTokens s)
    (passwordForgotTokens s) (accountUnlockCodes s) (unlockCodesPrototype s).

Definition set_sessionTokens (m : gmap string SessionToken) (s : Store) : Store :=
  mkStore (objects s) (accounts s) (uidByNormalizedEmail s) (uidByOpenId s)
    m (keyFetchTokens s) (accountResetTokens s) (passwordChangeTokens s)
    (passwordForgotTokens s) (accountUnlockCodes s) (unlockCodesPrototype s).

Definition set_keyFetchTokens (m : gmap string KeyFetchToken) (s : Store) : Store :=
  mkStore (objects s) (accounts s) (uidByNormalizedEmail s) (uidByOpenId s)
    (sessionTokens s) m (accountResetTokens s) (passwordChangeTokens s)
    (passwordForgotTokens s) (accountUnlockCodes s) (unlockCodesPrototype s).

Definition set_accountResetTokens (m : gmap string AccountResetToken) (s : Store) : Store :=
  mkStore (objects s) (accounts s) (uidByNormalizedEmail s) (uidByOpenId s)
    (sessionTokens s) (keyFetchTokens s) m (passwordChangeTokens s)
    (passwordForgotTokens s) (accountUnlockCodes s) (unlockCodesPrototype s).

Definition set_passwordChangeTokens (m : gmap string PasswordChangeToken) (s : Store) : Store :=
  mkStore (objects s) (accounts s) (uidByNormalizedEmail s) (uidByOpenId s)
    (sessionTokens s) (keyFetchTokens s) (accountResetTokens s) m
    (passwordForgotTokens s) (accountUnlockCodes s) (unlockCodesPrototype s).

Definition set_passwordForgotTokens (m : gmap string PasswordForgotToken) (s : Store) : Store :=
  mkStore (objects s) (accounts s) (uidByNormalizedEmail s) (uidByOpenId s)
    (sessionTokens s) (keyFetchTokens s) (accountResetTokens s) (passwordChangeTokens s)
    m (accountUnlockCodes s) (unlockCodesPrototype s).

Definition set_accountUnlockCodes (m : gmap string UnlockCode) (s : Store) : Store :=
  mkStore (objects s) (accounts s) (uidByNormalizedEmail s) (uidByOpenId s)
    (sessionTokens s) (keyFetchTokens s) (accountResetTokens s) (passwordChangeTokens s)
    (passwordForgotTokens s) m (unlockCodesPrototype s).

Definition set_unlockCodesPrototype (m : option UnlockCode) (s : Store) : Store :=
  mkStore (objects s) (accounts s) (uidByNormalizedEmail s) (uidByOpenId s)
    (sessionTokens s) (keyFetchTokens s) (accountResetTokens s) (passwordChangeTokens s)
    (passwordForgotTokens s) (accountUnlockCodes s) m.

(** A write to the object at address [r]. *)
Definition write_object (r : Ref) (a : Account) (s : Store) : Store :=
  set_objects (<[r := a]> (objects s)) s.

(** The caller builds an account object: it gets the next address. *)
Definition new_object (data : Account) (s : Store) : Ref * Store :=
  (length (objects s), set_objects (objects s ++ [data]) s).

(** [accounts[key]], dereferenced: the current content of the account
    object stored under [key]. *)
Definition account_at (s : Store) (key : string) : option Account :=
  accounts s !! key ≫= λ r, objects s !! r.

(** ** Plain objects and [Object.prototype] *)

(** The names of the properties that every plain object inherits from
    [Object.prototype]. *)
Definition Object_prototype : list string :=
  ["constructor"; "toString"; "toLocaleString"; "valueOf"; "hasOwnProperty";
   "isPrototypeOf"; "propertyIsEnumerable"; "__defineGetter__";
   "__defineSetter__"; "__lookupGetter__"; "__lookupSetter__"; "__proto__"].

Definition inherited (key : string) : bool :=
  existsb (String.eqb key) Object_prototype.

(** [toString] on the value of an inherited property.  [__proto__] gives
    [Object.prototype] itself, which renders as [[object Object]]; the other
    names give native functions, which render as their source text, under
    the function's own name: [Object] for [constructor], the property name
    for the rest. *)
Definition inherited_toString (key : string) : string :=
  if String.eqb key "__proto__" then "[object Object]"
  else
    let name := if String.eqb key "constructor" then "Object" else key in
    String.append "function " (String.append name "() { [native code] }").

(** The characters of a [hex] rendering. *)
Definition is_hex_digit (c : ascii) : bool :=
  let n := N_of_ascii c in
  ((48 <=? n) && (n <=? 57) || (97 <=? n) && (n <=? 102))%N.

Fixpoint is_hex (key : string) : bool :=
  match key with
  | EmptyString => true
  | String c rest => is_hex_digit c && is_hex rest
  end.

(** ** Helpers of the module *)

(** The argument of [getAccountByUid]: a Buffer from the callers that pass an
    identifier; from the callers that pass what an index lookup gives, a hex
    string, the value of an inherited property, or [undefined]. *)
Inductive UidArg :=
| UidBuffer (b : Buffer)
| UidString (s : string)
| UidInherited (key : string)
| UidUndefined.

(** [!uid]: an object is never falsy, a string is when empty. *)
Definition uid_falsy (uid : UidArg) : bool :=
  match uid with
  | UidBuffer _ => false
  | UidString s => String.eqb s ""
  | UidInherited _ => false
  | UidUndefined => true
  end.

(** [uid.toString('hex')]: the argument is ignored on anything but a
    Buffer. *)
Definition uid_toString_hex (uid : UidArg) : string :=
  match uid with
  | UidBuffer b => hex b
  | UidString s => s
  | UidInherited key => inherited_toString key
  | UidUndefined => ""
  end.

(** The promise resolves with the stored object: its address, with its
    current content. *)
Definition getAccountByUid (uid : UidArg) (s : Store) : Result (Ref * Account) :=
  if uid_falsy uid then Reject NotFound
  else match accounts s !! uid_toString_hex uid with
       | Some r =>
           match objects s !! r with
           | Some account => Resolve (r, account)
           | None => Reject NotFound
           end
       | None => Reject NotFound
       end.

(** [extend({}, account)] then [delete item.verifyHash]. *)
Definition filterAccount (account : Account) : Result Account :=
  Resolve (acct_set_verifyHash None account).

(** Rows that carry the owner's uid. *)
Class HasUid (A : Type) := uid_of : A → Buffer.
#[global] Instance SessionToken_uid : HasUid SessionToken := st_uid.
#[global] Instance KeyFetchToken_uid : HasUid KeyFetchToken := kf_uid.
#[global] Instance PasswordForgotToken_uid : HasUid PasswordForgotToken := pf_uid.
#[global] Instance PasswordChangeToken_uid : HasUid PasswordChangeToken := pc_uid.
#[global] Instance AccountResetToken_uid : HasUid AccountResetToken := ar_uid.
#[global] Instance UnlockCode_uid : HasUid UnlockCode := uc_uid.

(** [deleteByUid(uid, collection)]: every key whose item has that owner is
    deleted.  The [throw] on an item without [uid] needs a falsy [item.uid],
    which a Buffer never is. *)
Definition deleteByUid {A} `{HasUid A} (uid : string) (collection : gmap string A)
  : gmap string A :=
  filter (λ kv, hex (uid_of kv.2) ≠ uid) collection.

(** [index[key]] on one of the two indices: the string the index holds under
    [key]; without one, what [Object.prototype] has under that name, if
    anything. *)
Definition index_entry (index : gmap string string) (key : string) : UidArg :=
  match index !! key with
  | Some uid => UidString uid
  | None => if inherited key then UidInherited key else UidUndefined
  end.

(** [if (index[key])] *)
Definition index_truthy (index : gmap string string) (key : string) : bool :=
  negb (uid_falsy (index_entry index key)).

(** The property key of [index[o]]: an [undefined] key is converted to the
    string [undefined]. *)
Definition property_key (o : option string) : string :=
  match o with
  | Some k => k
  | None => "undefined"
  end.

(** [(id || '').toString('hex')] *)
Definition hex_or_empty (id : option Buffer) : string :=
  match id with
  | Some b => hex b
  | None => ""
  end.

(** ** CREATE *)

(** [data] is the caller's object.  The two assignments that open the
    function are made on it before any check, so they are kept when the call
    rejects; [accounts[uid] = data] stores the object itself.  When [data] is
    not an object the first assignment throws. *)
Definition createAccount (uid : Buffer) (data : Ref) (s : Store)
  : Result unit * Store :=
  let uid := hex uid in
  match objects s !! data with
  | None => (Reject TypeError, s)
  | Some payload =>
      let payload := acct_set_lockedAt VNull (acct_set_devices ∅ payload) in
      let s := write_object data payload s in
      if account_at s uid is Some _ then (Reject Duplicate, s)
      else if index_truthy (uidByNormalizedEmail s) (normalizedEmail payload)
      then (Reject Duplicate, s)
      else
        let insert_row (s : Store) :=
          set_uidByNormalizedEmail
            (<[normalizedEmail payload := uid]> (uidByNormalizedEmail s))
            (set_accounts (<[uid := data]> (accounts s)) s) in
        match openId payload with
        | Some o =>
            if str_truthy o then
              if index_truthy (uidByOpenId s) o then (Reject Duplicate, s)
              else (Resolve (),
                    insert_row (set_uidByOpenId (<[o := uid]> (uidByOpenId s)) s))
            else (Resolve (), insert_row s)
        | None => (Resolve (), insert_row s)
        end
  end.

(** The [sessionToken] argument of [createSessionToken]. *)
Record SessionTokenData := mkSessionTokenData {
  std_data : value;
  std_uid : Buffer;
  std_createdAt : value;
  std_uaBrowser : value;
  std_uaBrowserVersion : value;
  std_uaOS : value;
  std_uaOSVersion : value;
  std_uaDeviceType : value
}.

Definition createSessionToken (tokenId : Buffer) (sessionToken : SessionTokenData)
  (s : Store) : Result unit * Store :=
  let tokenId := hex tokenId in
  if sessionTokens s !! tokenId is Some _ then (Reject Duplicate, s)
  else
    let row :=
      mkSessionToken (std_data sessionToken) (std_uid sessionToken)
        (std_createdAt sessionToken)
        (mkSessionFields (std_uaBrowser sessionToken)
           (std_uaBrowserVersion sessionToken) (std_uaOS sessionToken)
           (std_uaOSVersion sessionToken) (std_uaDeviceType sessionToken)
           (std_createdAt sessionToken))
        None in
    (Resolve (), set_sessionTokens (<[tokenId := row]> (sessionTokens s)) s).

Definition createKeyFetchToken (tokenId : Buffer) (keyFetchToken : KeyFetchToken)
  (s : Store) : Result unit * Store :=
  let tokenId := hex tokenId in
  if keyFetchTokens s !! tokenId is Some _ then (Reject Duplicate, s)
  else (Resolve (),
        set_keyFetchTokens (<[tokenId := keyFetchToken]> (keyFetchTokens s)) s).

(** The argument carries the row's fields ([data] is stored as [tokenData]). *)
Definition createPasswordForgotToken (tokenId : Buffer)
  (passwordForgotToken : PasswordForgotToken) (s : Store) : Result unit * Store :=
  let tokenId := hex tokenId in
  if passwordForgotTokens s !! tokenId is Some _ then (Reject Duplicate, s)
  else
    let rest := deleteByUid (hex (pf_uid passwordForgotToken)) (passwordForgotTokens s) in
    (Resolve (),
     set_passwordForgotTokens (<[tokenId := passwordForgotToken]> rest) s).

Definition createPasswordChangeToken (tokenId : Buffer)
  (passwordChangeToken : PasswordChangeToken) (s : Store) : Result unit * Store :=
  let tokenId := hex tokenId in
  if passwordChangeTokens s !! tokenId is Some _ then (Reject Duplicate, s)
  else
    let rest := deleteByUid (hex (pc_uid passwordChangeToken)) (passwordChangeTokens s) in
    (Resolve (),
     set_passwordChangeTokens (<[tokenId := passwordChangeToken]> rest) s).

Definition createAccountResetToken (tokenId : Buffer)
  (accountResetToken : AccountResetToken) (s : Store) : Result unit * Store :=
  let tokenId := hex tokenId in
  let rest := deleteByUid (hex (ar_uid accountResetToken)) (accountResetTokens s) in
  (Resolve (),
   set_accountResetTokens (<[tokenId := accountResetToken]> rest) s).

(** The [deviceInfo] payload: the DEVICE_FIELDS, each possibly omitted. *)
Record DeviceInfo := mkDeviceInfo {
  di_sessionTokenId : option Buffer;
  di_name : value;
  di_type : value;
  di_createdAt : value;
  di_callbackURL : value;
  di_callbackPublicKey : value
}.

Definition di_set_sessionTokenId (id : option Buffer) (i : DeviceInfo) : DeviceInfo :=
  mkDeviceInfo id (di_name i) (di_type i) (di_createdAt i) (di_callbackURL i)
    (di_callbackPublicKey i).

(** [new Buffer(32)] filled with zeros. *)
Definition zero_key : Buffer := repeat x00 32.

(** One round of the [DEVICE_FIELDS.forEach] body, for a field held as a
    value: [current] is [device[key]], [field] is [deviceInfo[key]]. *)
Definition merge_field (is_callbackPublicKey : bool) (current field : value) : value :=
  match field with
  | VUndefined | VNull =>
      match current with
      | VUndefined => VNull
      | _ => current
      end
  | VStr s =>
      if String.eqb s "" && is_callbackPublicKey then VBuf zero_key else field
  | _ => field
  end.

(** The same round for [sessionTokenId]. *)
Definition merge_sessionTokenId (current field : option Buffer) : option Buffer :=
  match field with
  | None => current
  | Some id => Some id
  end.

Definition merge_device (device : Device) (deviceInfo : DeviceInfo) : Device :=
  mkDevice (dev_uid device) (dev_id device)
    (merge_sessionTokenId (dev_sessionTokenId device) (di_sessionTokenId deviceInfo))
    (merge_field false (dev_name device) (di_name deviceInfo))
    (merge_field false (dev_type device) (di_type deviceInfo))
    (merge_field false (dev_createdAt device) (di_createdAt deviceInfo))
    (merge_field false (dev_callbackURL device) (di_callbackURL deviceInfo))
    (merge_field true (dev_callbackPublicKey device) (di_callbackPublicKey deviceInfo))
    (dev_fields device).

(** [session && session.deviceKey && session.deviceKey !== deviceKey] *)
Definition bound_elsewhere (session : option SessionToken) (deviceKey : string) : bool :=
  match session with
  | Some t =>
      match st_deviceKey t with
      | Some k => str_truthy k && negb (String.eqb k deviceKey)
      | None => false
      end
  | None => false
  end.

Definition updateDeviceRecord (device : Device) (deviceInfo : DeviceInfo)
  (deviceKey : string) (s : Store) : Result Device * Store :=
  let sessionKey := hex_or_empty (di_sessionTokenId deviceInfo) in
  let session :=
    if str_truthy sessionKey then sessionTokens s !! sessionKey else None in
  if bound_elsewhere session deviceKey then (Reject Duplicate, s)
  else
    let device := merge_device device deviceInfo in
    match session with
    | Some t =>
        (Resolve (dev_set_fields (st_fields t) device),
         set_sessionTokens
           (<[sessionKey := st_set_deviceKey (Some deviceKey) t]> (sessionTokens s)) s)
    | None => (Resolve device, s)
    end.

(** [{ uid: uid, id: deviceId }]: every other property is still undefined. *)
Definition new_device (uid deviceId : Buffer) : Device :=
  mkDevice uid deviceId None VUndefined VUndefined VUndefined VUndefined VUndefined
    (mkSessionFields VUndefined VUndefined VUndefined VUndefined VUndefined VUndefined).

(** [account.devices[deviceKey] = device] on the account object at [r]. *)
Definition store_device (r : Ref) (deviceKey : string) (device : Device) (s : Store)
  : Store :=
  match objects s !! r with
  | Some account =>
      write_object r
        (acct_set_devices (<[deviceKey := device]> (devices account)) account) s
  | None => s
  end.

Definition createDevice (uid deviceId : Buffer) (deviceInfo : DeviceInfo) (s : Store)
  : Result unit * Store :=
  match getAccountByUid (UidBuffer uid) s with
  | Reject e => (Reject e, s)
  | Resolve (r, account) =>
      let deviceKey := hex deviceId in
      if devices account !! deviceKey is Some _ then (Reject Duplicate, s)
      else
        match updateDeviceRecord (new_device uid deviceId) deviceInfo deviceKey s with
        | (Reject e, s') => (Reject e, s')
        | (Resolve device, s') => (Resolve (), store_device r deviceKey device s')
        end
  end.

(** [oldSession.deviceKey = null] when the token is still in the table. *)
Definition unlink_session (oldSessionKey : string) (s : Store) : Store :=
  match sessionTokens s !! oldSessionKey with
  | Some oldSession =>
      set_sessionTokens
        (<[oldSessionKey := st_set_deviceKey None oldSession]> (sessionTokens s)) s
  | None => s
  end.

(** The [if (device.sessionTokenId)] block of [updateDevice]: a payload that
    names another token than the device's unlinks the device's token; a
    payload that names none is completed with the device's token. *)
Definition release_old_session (device : Device) (deviceInfo : DeviceInfo) (s : Store)
  : DeviceInfo * Store :=
  match dev_sessionTokenId device, di_sessionTokenId deviceInfo with
  | Some old, Some new =>
      let oldSessionKey := hex old in
      if negb (String.eqb oldSessionKey (hex new))
      then (deviceInfo, unlink_session oldSessionKey s)
      else (deviceInfo, s)
  | Some old, None => (di_set_sessionTokenId (Some old) deviceInfo, s)
  | None, _ => (deviceInfo, s)
  end.

Definition updateDevice (uid deviceId : Buffer) (deviceInfo : DeviceInfo) (s : Store)
  : Result unit * Store :=
  match getAccountByUid (UidBuffer uid) s with
  | Reject e => (Reject e, s)
  | Resolve (r, account) =>
      let deviceKey := hex deviceId in
      match devices account !! deviceKey with
      | None => (Reject NotFound, s)
      | Some device =>
          let '(deviceInfo, s) := release_old_session device deviceInfo s in
          match updateDeviceRecord device deviceInfo deviceKey s with
          | (Reject e, s') => (Reject e, s')
          | (Resolve device, s') => (Resolve (), store_device r deviceKey device s')
          end
      end
  end.

(** ** DELETE *)

Definition deleteSessionToken (tokenId : Buffer) (s : Store) : Result unit * Store :=
  let tokenId := hex tokenId in
  match sessionTokens s !! tokenId with
  | None => (Resolve (), s)
  | Some _ => (Resolve (), set_sessionTokens (delete tokenId (sessionTokens s)) s)
  end.

Definition deleteKeyFetchToken (tokenId : Buffer) (s : Store) : Result unit * Store :=
  (Resolve (), set_keyFetchTokens (delete (hex tokenId) (keyFetchTokens s)) s).

Definition deleteAccountResetToken (tokenId : Buffer) (s : Store) : Result unit * Store :=
  (Resolve (), set_accountResetTokens (delete (hex tokenId) (accountResetTokens s)) s).

Definition deletePasswordForgotToken (tokenId : Buffer) (s : Store) : Result unit * Store :=
  (Resolve (), set_passwordForgotTokens (delete (hex tokenId) (passwordForgotTokens s)) s).

Definition deletePasswordChangeToken (tokenId : Buffer) (s : Store) : Result unit * Store :=
  (Resolve (), set_passwordChangeTokens (delete (hex tokenId) (passwordChangeTokens s)) s).

Definition deleteDevice (uid deviceId : Buffer) (s : Store) : Result unit * Store :=
  let deviceKey := hex deviceId in
  match getAccountByUid (UidBuffer uid) s with
  | Reject e => (Reject e, s)
  | Resolve (r, account) =>
      match devices account !! deviceKey with
      | None => (Reject NotFound, s)
      | Some device =>
          let sessionKey := hex_or_empty (dev_sessionTokenId device) in
          let s := set_sessionTokens (delete sessionKey (sessionTokens s)) s in
          (Resolve (),
           write_object r
             (acct_set_devices (delete deviceKey (devices account)) account) s)
      end
  end.

(** ** READ *)

Definition checkPassword (uid : Buffer) (hash : Buffer) (s : Store) : Result Buffer :=
  match getAccountByUid (UidBuffer uid) s with
  | Resolve (_, account) =>
      match verifyHash account with
      | Some stored =>
          if String.eqb (hex stored) (hex hash) then Resolve uid
          else Reject IncorrectPassword
      | None => Reject TypeError
      end
  | Reject _ => Reject IncorrectPassword
  end.

(** The callback of [accountDevices] on one device: the SESSION_FIELDS of the
    token the device names, when that token is in the table, are written onto
    the stored device. *)
Definition refresh_device (s : Store) (device : Device) : Device :=
  let sessionKey := hex_or_empty (dev_sessionTokenId device) in
  match sessionTokens s !! sessionKey with
  | Some session => dev_set_fields (st_fields session) device
  | None => device
  end.

(** [accountDevices] returns the stored device objects after writing onto
    them, so it also changes the store.  The order of [Object.keys] is not
    modelled: the listing comes in the order of [map_to_list]. *)
Definition accountDevices (uid : Buffer) (s : Store) : Result (list Device) * Store :=
  match getAccountByUid (UidBuffer uid) s with
  | Resolve (r, account) =>
      let refreshed := refresh_device s <$> devices account in
      (Resolve (map_to_list refreshed).*2,
       write_object r (acct_set_devices refreshed account) s)
  | Reject _ => (Resolve [], s)
  end.

Definition account (uid : Buffer) (s : Store) : Result Account :=
  match getAccountByUid (UidBuffer uid) s with
  | Resolve (_, account) => filterAccount account
  | Reject e => Reject e
  end.

(** The value [sessionToken] resolves with. *)
Record SessionTokenItem := mkSessionTokenItem {
  sti_tokenData : value;
  sti_uid : Buffer;
  sti_createdAt : value;
  sti_uaBrowser : value;
  sti_uaBrowserVersion : value;
  sti_uaOS : value;
  sti_uaOSVersion : value;
  sti_uaDeviceType : value;
  sti_lastAccessTime : value;
  sti_emailVerified : value;
  sti_email : value;
  sti_emailCode : value;
  sti_verifierSetAt : value;
  sti_locale : value;
  sti_accountCreatedAt : value
}.

Definition sessionToken (id : Buffer) (s : Store) : Result SessionTokenItem :=
  let id := hex id in
  match sessionTokens s !! id with
  | None => Reject NotFound
  | Some token =>
      let accountId := hex (st_uid token) in
      match account_at s accountId with
      | None => Reject TypeError
      | Some account =>
          Resolve
            (mkSessionTokenItem (st_data token) (st_uid token) (st_createdAt token)
               (or_null (uaBrowser (st_fields token)))
               (or_null (uaBrowserVersion (st_fields token)))
               (or_null (uaOS (st_fields token)))
               (or_null (uaOSVersion (st_fields token)))
               (or_null (uaDeviceType (st_fields token)))
               (lastAccessTime (st_fields token))
               (emailVerified account) (email account) (emailCode account)
               (verifierSetAt account) (locale account) (createdAt account))
      end
  end.

(** The value [passwordForgotToken] resolves with. *)
Record PasswordForgotTokenItem := mkPasswordForgotTokenItem {
  pfi_tokenData : value;
  pfi_uid : Buffer;
  pfi_passCode : value;
  pfi_tries : value;
  pfi_createdAt : value;
  pfi_email : value;
  pfi_verifierSetAt : value
}.

Definition passwordForgotToken (id : Buffer) (s : Store) : Result PasswordForgotTokenItem :=
  let id := hex id in
  match passwordForgotTokens s !! id with
  | None => Reject NotFound
  | Some token =>
      let accountId := hex (pf_uid token) in
      match account_at s accountId with
      | None => Reject TypeError
      | Some account =>
          Resolve
            (mkPasswordForgotTokenItem (pf_tokenData token) (pf_uid token)
               (pf_passCode token) (pf_tries token) (pf_createdAt token)
               (email account) (verifierSetAt account))
      end
  end.

(** ** BATCH *)

Definition verifyEmail (uid : Buffer) (s : Store) : Result unit * Store :=
  match getAccountByUid (UidBuffer uid) s with
  | Resolve (r, account) =>
      (Resolve (), write_object r (acct_set_emailVerified (VNum 1) account) s)
  | Reject _ => (Resolve (), s)
  end.

(** The [data] argument of [resetAccount]. *)
Record ResetData := mkResetData {
  rd_verifyHash : option Buffer;
  rd_authSalt : value;
  rd_wrapWrapKb : value;
  rd_verifierSetAt : value;
  rd_verifierVersion : value
}.

(** The six [deleteByUid] calls shared by [resetAccount] and [deleteAccount]. *)
Definition delete_owned (uid : string) (s : Store) : Store :=
  mkStore (objects s) (accounts s) (uidByNormalizedEmail s) (uidByOpenId s)
    (deleteByUid uid (sessionTokens s))
    (deleteByUid uid (keyFetchTokens s))
    (deleteByUid uid (accountResetTokens s))
    (deleteByUid uid (passwordChangeTokens s))
    (deleteByUid uid (passwordForgotTokens s))
    (deleteByUid uid (accountUnlockCodes s))
    (unlockCodesPrototype s).

Definition resetAccount (uid : Buffer) (data : ResetData) (s : Store)
  : Result unit * Store :=
  match getAccountByUid (UidBuffer uid) s with
  | Reject e => (Reject e, s)
  | Resolve (r, a) =>
      let uid := hex uid in
      let s := delete_owned uid s in
      let a :=
        mkAccount (normalizedEmail a) (email a) (openId a) (rd_verifyHash data)
          (rd_authSalt data) (rd_wrapWrapKb data) (rd_verifierSetAt data)
          (rd_verifierVersion data) (emailVerified a) (emailCode a) (locale a)
          (createdAt a) (lockedAt a) ∅ in
      (Resolve (), write_object r a s)
  end.

Definition deleteAccount (uid : Buffer) (s : Store) : Result unit * Store :=
  match getAccountByUid (UidBuffer uid) s with
  | Reject e => (Reject e, s)
  | Resolve (_, account) =>
      let uid := hex uid in
      let s := delete_owned uid s in
      let s :=
        set_uidByNormalizedEmail
          (delete (normalizedEmail account) (uidByNormalizedEmail s)) s in
      let s :=
        set_uidByOpenId (delete (property_key (openId account)) (uidByOpenId s)) s in
      (Resolve (), set_accounts (delete uid (accounts s)) s)
  end.

Definition updateLocale (uid : Buffer) (locale : value) (s : Store)
  : Result unit * Store :=
  match getAccountByUid (UidBuffer uid) s with
  | Reject e => (Reject e, s)
  | Resolve (r, account) =>
      (Resolve (), write_object r (acct_set_locale locale account) s)
  end.

(** ** UPDATE *)

Definition updatePasswordForgotToken (id : Buffer) (tries : value) (s : Store)
  : Result unit * Store :=
  match passwordForgotTokens s !! hex id with
  | None => (Reject NotFound, s)
  | Some token =>
      (Resolve (),
       set_passwordForgotTokens
         (<[hex id := pf_set_tries tries token]> (passwordForgotTokens s)) s)
  end.

Definition updateSessionToken (id : Buffer) (data : SessionFields) (s : Store)
  : Result unit * Store :=
  match sessionTokens s !! hex id with
  | None => (Reject NotFound, s)
  | Some token =>
      (Resolve (),
       set_sessionTokens (<[hex id := st_set_fields data token]> (sessionTokens s)) s)
  end.

(** ** Operations that go through the runtime's string conversions

    [utf8] is [Buffer.prototype.toString()] (also what a Buffer used as a
    property key is converted with) and [toLowerCase] is
    [String.prototype.toLowerCase]; both belong to the runtime. *)
Section Runtime.
Variable utf8 : Buffer → string.
Variable toLowerCase : string → string.

Definition accountExists (email : Buffer) (s : Store) : Result unit :=
  let email := toLowerCase (utf8 email) in
  if index_truthy (uidByNormalizedEmail s) email then Resolve ()
  else Reject NotFound.

Definition emailRecord (email : Buffer) (s : Store) : Result Account :=
  let email := toLowerCase (utf8 email) in
  match getAccountByUid (index_entry (uidByNormalizedEmail s) email) s with
  | Resolve (_, account) => filterAccount account
  | Reject e => Reject e
  end.

Definition openIdRecord (openId : Buffer) (s : Store) : Result Account :=
  match getAccountByUid (index_entry (uidByOpenId s) (utf8 openId)) s with
  | Resolve (_, account) => filterAccount account
  | Reject e => Reject e
  end.

(** [accountUnlockCodes[key] = code].  When the table has no own property
    [__proto__], an assignment under that name runs the setter inherited from
    [Object.prototype]: [code] becomes the prototype of the table, and the
    table gets no property. *)
Definition assign_unlockCode (key : string) (code : UnlockCode) (s : Store) : Store :=
  match accountUnlockCodes s !! key with
  | None =>
      if String.eqb key "__proto__" then set_unlockCodesPrototype (Some code) s
      else set_accountUnlockCodes (<[key := code]> (accountUnlockCodes s)) s
  | Some _ => set_accountUnlockCodes (<[key := code]> (accountUnlockCodes s)) s
  end.

Definition lockAccount (uid : Buffer) (lockedAt unlockCode : value) (s : Store)
  : Result unit * Store :=
  match getAccountByUid (UidBuffer uid) s with
  | Reject e => (Reject e, s)
  | Resolve (r, account) =>
      let s := write_object r (acct_set_lockedAt lockedAt account) s in
      (Resolve (), assign_unlockCode (utf8 uid) (mkUnlockCode uid unlockCode) s)
  end.

(** [delete] removes an own property only. *)
Definition unlockAccount (uid : Buffer) (s : Store) : Result unit * Store :=
  match getAccountByUid (UidBuffer uid) s with
  | Resolve (r, account) =>
      let s := write_object r (acct_set_lockedAt VNull account) s in
      (Resolve (),
       set_accountUnlockCodes (delete (utf8 uid) (accountUnlockCodes s)) s)
  | Reject _ => (Resolve (), s)
  end.

(** What [accountUnlockCodes[uid]] can be when it is truthy. *)
Inductive Unlocked :=
(* an object [{uid, unlockCode}]: a stored one, or the table's prototype *)
| UnlockRecord (code : UnlockCode)
(* [Object.prototype], read through [__proto__] *)
| UnlockObjectPrototype
(* a function inherited from [Object.prototype] *)
| UnlockFunction (key : string)
(* a field of the object that is the table's prototype *)
| UnlockField (v : value).

(** The lookup goes through the table's own properties, then through its
    prototype chain: the object an assignment to [__proto__] has put there,
    if any, then [Object.prototype]. *)
Definition unlockCode (uid : Buffer) (s : Store) : Result Unlocked :=
  let key := utf8 uid in
  match accountUnlockCodes s !! key with
  | Some unlockCode => Resolve (UnlockRecord unlockCode)
  | None =>
      if String.eqb key "__proto__" then
        match unlockCodesPrototype s with
        | Some prototype => Resolve (UnlockRecord prototype)
        | None => Resolve UnlockObjectPrototype
        end
      else
        let from_Object_prototype :=
          if inherited key then Resolve (UnlockFunction key) else Reject NotFound in
        match unlockCodesPrototype s with
        | Some prototype =>
            if String.eqb key "uid" then Resolve (UnlockField (VBuf (uc_uid prototype)))
            else if String.eqb key "unlockCode" then
              if truthy (uc_unlockCode prototype)
              then Resolve (UnlockField (uc_unlockCode prototype))
              else Reject NotFound
            else from_Object_prototype
        | None => from_Object_prototype
        end
  end.

(** [P.all] of four calls made in order: it resolves when all four do, and
    rejects with the first rejection otherwise.  The payload's [tokenId] is
    passed as [resetTokenId], the rest of the payload as the row. *)
Definition forgotPasswordVerified (tokenId : Buffer) (resetTokenId : Buffer)
  (accountResetToken : AccountResetToken) (s : Store) : Result unit * Store :=
  let '(r1, s) := deletePasswordForgotToken tokenId s in
  let '(r2, s) := createAccountResetToken resetTokenId accountResetToken s in
  let '(r3, s) := verifyEmail (ar_uid accountResetToken) s in
  let '(r4, s) := unlockAccount (ar_uid accountResetToken) s in
  match r1, r2, r3, r4 with
  | Resolve _, Resolve _, Resolve _, Resolve _ => (Resolve (), s)
  | Reject e, _, _, _
  | _, Reject e, _, _
  | _, _, Reject e, _
  | _, _, _, Reject e => (Reject e, s)
  end.
End Runtime.

(** ** The store as a transition system *)

(** The steps that can change the store: a caller building an account object
    to pass to [createAccount], and the operations that write.  The remaining
    operations ([account], [emailRecord], [sessions], [sessionToken], the
    token reads, [unlockCode], [ping], [close]) only read. *)
Inductive Op :=
| NewObject (data : Account)
| CreateAccount (uid : Buffer) (data : Ref)
| CreateSessionToken (tokenId : Buffer) (sessionToken : SessionTokenData)
| CreateKeyFetchToken (tokenId : Buffer) (keyFetchToken : KeyFetchToken)
| CreatePasswordForgotToken (tokenId : Buffer) (token : PasswordForgotToken)
| CreatePasswordChangeToken (tokenId : Buffer) (token : PasswordChangeToken)
| CreateAccountResetToken (tokenId : Buffer) (token : AccountResetToken)
| CreateDevice (uid deviceId : Buffer) (deviceInfo : DeviceInfo)
| UpdateDevice (uid deviceId : Buffer) (deviceInfo : DeviceInfo)
| DeleteSessionToken (tokenId : Buffer)
| DeleteKeyFetchToken (tokenId : Buffer)
| DeleteAccountResetToken (tokenId : Buffer)
| DeletePasswordForgotToken (tokenId : Buffer)
| DeletePasswordChangeToken (tokenId : Buffer)
| DeleteDevice (uid deviceId : Buffer)
| AccountDevices (uid : Buffer)
| VerifyEmail (uid : Buffer)
| ForgotPasswordVerified (tokenId resetTokenId : Buffer) (token : AccountResetToken)
| ResetAccount (uid : Buffer) (data : ResetData)
| DeleteAccount (uid : Buffer)
| UpdateLocale (uid : Buffer) (locale : value)
| LockAccount (uid : Buffer) (lockedAt unlockCode : value)
| UnlockAccount (uid : Buffer)
| UpdatePasswordForgotToken (id : Buffer) (tries : value)
| UpdateSessionToken (id : Buffer) (data : SessionFields).

(** The store an operation leaves behind, whether it resolves or rejects. *)
Definition exec (utf8 : Buffer → string) (op : Op) (s : Store) : Store :=
  match op with
  | NewObject data => (new_object data s).2
  | CreateAccount uid data => (createAccount uid data s).2
  | CreateSessionToken id t => (createSessionToken id t s).2
  | CreateKeyFetchToken id t => (createKeyFetchToken id t s).2
  | CreatePasswordForgotToken id t => (createPasswordForgotToken id t s).2
  | CreatePasswordChangeToken id t => (createPasswordChangeToken id t s).2
  | CreateAccountResetToken id t => (createAccountResetToken id t s).2
  | CreateDevice uid id info => (createDevice uid id info s).2
  | UpdateDevice uid id info => (updateDevice uid id info s).2
  | DeleteSessionToken id => (deleteSessionToken id s).2
  | DeleteKeyFetchToken id => (deleteKeyFetchToken id s).2
  | DeleteAccountResetToken id => (deleteAccountResetToken id s).2
  | DeletePasswordForgotToken id => (deletePasswordForgotToken id s).2
  | DeletePasswordChangeToken id => (deletePasswordChangeToken id s).2
  | DeleteDevice uid id => (deleteDevice uid id s).2
  | AccountDevices uid => (accountDevices uid s).2
  | VerifyEmail uid => (verifyEmail uid s).2
  | ForgotPasswordVerified id rid t => (forgotPasswordVerified utf8 id rid t s).2
  | ResetAccount uid data => (resetAccount uid data s).2
  | DeleteAccount uid => (deleteAccount uid s).2
  | UpdateLocale uid l => (updateLocale uid l s).2
  | LockAccount uid l c => (lockAccount utf8 uid l c s).2
  | UnlockAccount uid => (unlockAccount utf8 uid s).2
  | UpdatePasswordForgotToken id tries => (updatePasswordForgotToken id tries s).2
  | UpdateSessionToken id data => (updateSessionToken id data s).2
  end.

Definition run (utf8 : Buffer → string) (ops : list Op) (s : Store) : Store :=
  fold_left (λ s op, exec utf8 op s) ops s.

(** The stores the module can be in: the tables start empty and change only
    through the operations, on the objects the callers have built. *)
Inductive reachable (utf8 : Buffer → string) : Store → Prop :=
| reachable_empty : reachable utf8 empty_store
| reachable_step op s : reachable utf8 s → reachable utf8 (exec utf8 op s).

(** ** The session/device link *)

(** The session token stored under [id] is consistent with the device it
    names: when its [deviceKey] is set (truthy), the owning account has a
    device under that key whose [sessionTokenId] is [id]. *)
Definition link_ok (s : Store) (id : string) (t : SessionToken) : Prop :=
  ∀ k, st_deviceKey t = Some k → k ≠ "" →
    ∃ a d, account_at s (hex (st_uid t)) = Some a ∧ devices a !! k = Some d ∧
           hex <$> dev_sessionTokenId d = Some id.

Definition linked (s : Store) : Prop := map_Forall (link_ok s) (sessionTokens s).

(** The same check, computed. *)
Definition link_okb (s : Store) (id : string) (t : SessionToken) : bool :=
  match st_deviceKey t with
  | Some k =>
      if str_truthy k then
        match account_at s (hex (st_uid t)) with
        | Some a =>
            match devices a !! k with
            | Some d =>
                match dev_sessionTokenId d with
                | Some b => String.eqb (hex b) id
                | None => false
                end
            | None => false
            end
        | None => false
        end
      else true
  | None => true
  end.

Definition linkedb (s : Store) : bool :=
  forallb (λ kv, link_okb s kv.1 kv.2) (map_to_list (sessionTokens s)).

(** The token [updateDeviceRecord] resolves for [sessionKey], if any, belongs
    to account [uid]. *)
Definition owned_by (s : Store) (uid : Buffer) (sessionKey : string) : bool :=
  if str_truthy sessionKey then
    match sessionTokens s !! sessionKey with
    | Some t => String.eqb (hex (st_uid t)) (hex uid)
    | None => true
    end
  else true.

(** The store never compares the owner of a session token with the account of
    the device it is bound to.  [binds_own_session] holds of the calls that
    respect it: the token [createDevice] or [updateDevice] resolves (the one
    the payload names, else the one the device already names) belongs to the
    account the call is made for. *)
Definition binds_own_session (op : Op) (s : Store) : bool :=
  match op with
  | CreateDevice uid _ info => owned_by s uid (hex_or_empty (di_sessionTokenId info))
  | UpdateDevice uid deviceId info =>
      match account_at s (hex uid) with
      | Some a =>
          match devices a !! hex deviceId with
          | Some d =>
              owned_by s uid
                (hex_or_empty
                   (merge_sessionTokenId (dev_sessionTokenId d) (di_sessionTokenId info)))
          | None => true
          end
      | None => true
      end
  | _ => true
  end.

(** [createAccount] writes onto the object it is handed before it checks
    anything.  [passes_new_object] holds of the calls that hand it an object
    that is not in the store at the time. *)
Definition passes_new_object (op : Op) (s : Store) : bool :=
  match op with
  | CreateAccount _ data =>
      forallb (λ kv, negb (Nat.eqb kv.2 data)) (map_to_list (accounts s))
  | _ => true
  end.

(** The calls that respect both. *)
Definition well_used (op : Op) (s : Store) : bool :=
  binds_own_session op s && passes_new_object op s.

Inductive reachable_own (utf8 : Buffer → string) : Store → Prop :=
| reachable_own_empty : reachable_own utf8 empty_store
| reachable_own_step op s :
    reachable_own utf8 s → well_used op s = true →
    reachable_own utf8 (exec utf8 op s).

(** ** Statement helpers *)

(** Case folding of the ASCII letters, to compare two strings up to case. *)
Definition ascii_lower (c : ascii) : ascii :=
  let n := N_of_ascii c in
  if ((65 <=? n) && (n <=? 90))%N then ascii_of_N (n + 32) else c.

Fixpoint lower (s : string) : string :=
  match s with
  | EmptyString => EmptyString
  | String c rest => String (ascii_lower c) (lower rest)
  end.

(** An account view and a stored account agree on every field but
    [verifyHash]. *)
Definition same_but_verifyHash (item a : Account) : Prop :=
  normalizedEmail item = normalizedEmail a ∧ email item = email a ∧
  openId item = openId a ∧ authSalt item = authSalt a ∧
  wrapWrapKb item = wrapWrapKb a ∧ verifierSetAt item = verifierSetAt a ∧
  verifierVersion item = verifierVersion a ∧ emailVerified item = emailVerified a ∧
  emailCode item = emailCode a ∧ locale item = locale a ∧
  createdAt item = createdAt a ∧ lockedAt item = lockedAt a ∧
  devices item = devices a.

(** Two account objects agree on every field but [devices] and [lockedAt],
    the two that [createAccount] writes on its payload. *)
Definition same_but_devices_lockedAt (a' a : Account) : Prop :=
  normalizedEmail a' = normalizedEmail a ∧ email a' = email a ∧
  openId a' = openId a ∧ verifyHash a' = verifyHash a ∧
  authSalt a' = authSalt a ∧ wrapWrapKb a' = wrapWrapKb a ∧
  verifierSetAt a' = verifierSetAt a ∧ verifierVersion a' = verifierVersion a ∧
  emailVerified a' = emailVerified a ∧ emailCode a' = emailCode a ∧
  locale a' = locale a ∧ createdAt a' = createdAt a.

(** Two account objects agree on every field but [emailVerified] and
    [lockedAt]. *)
Definition same_but_emailVerified_lockedAt (a' a : Account) : Prop :=
  normalizedEmail a' = normalizedEmail a ∧ email a' = email a ∧
  openId a' = openId a ∧ verifyHash a' = verifyHash a ∧
  authSalt a' = authSalt a ∧ wrapWrapKb a' = wrapWrapKb a ∧
  verifierSetAt a' = verifierSetAt a ∧ verifierVersion a' = verifierVersion a ∧
  emailCode a' = emailCode a ∧ locale a' = locale a ∧
  createdAt a' = createdAt a ∧ devices a' = devices a.

(** Two stores hold the same tables (the account objects may differ). *)
Definition same_tables (s' s : Store) : Prop :=
  accounts s' = accounts s ∧
  uidByNormalizedEmail s' = uidByNormalizedEmail s ∧
  uidByOpenId s' = uidByOpenId s ∧
  sessionTokens s' = sessionTokens s ∧
  keyFetchTokens s' = keyFetchTokens s ∧
  accountResetTokens s' = accountResetTokens s ∧
  passwordChangeTokens s' = passwordChangeTokens s ∧
  passwordForgotTokens s' = passwordForgotTokens s ∧
  accountUnlockCodes s' = accountUnlockCodes s ∧
  unlockCodesPrototype s' = unlockCodesPrototype s.

(** The five user-agent fields of a [sessionToken] result. *)
Definition sti_ua (item : SessionTokenItem) : list value :=
  [sti_uaBrowser item; sti_uaBrowserVersion item; sti_uaOS item;
   sti_uaOSVersion item; sti_uaDeviceType item].

Definition std_ua (t : SessionTokenData) : list value :=
  [std_uaBrowser t; std_uaBrowserVersion t; std_uaOS t;
   std_uaOSVersion t; std_uaDeviceType t].

(** The account fields a [sessionToken] result is joined with. *)
Definition joined_with (item : SessionTokenItem) (a : Account) : Prop :=
  sti_emailVerified item = emailVerified a ∧ sti_email item = email a ∧
  sti_emailCode item = emailCode a ∧ sti_verifierSetAt item = verifierSetAt a ∧
  sti_locale item = locale a ∧ sti_accountCreatedAt item = createdAt a.

(** ** Sample data *)

(** A stand-in for the runtime's decoder on the sample identifiers. *)
Definition sample_utf8 (b : Buffer) : string := string_of_list_byte b.

Definition sample_account (normalized : string) (oid : option string) : Account :=
  mkAccount normalized (VStr normalized) oid (Some [x11; x22]) (VBuf [x33]) (VBuf [x44])
    (VNum 1000) (VNum 1) (VBool false) (VBuf [x55]) (VStr "en") (VNum 999)
    VUndefined ∅.

Definition uidA : Buffer := [x0a].
Definition uidB : Buffer := [x0b].
Definition tok1 : Buffer := [xc1].
Definition tok2 : Buffer := [xc2].
Definition devD : Buffer := [xd1].
Definition devE : Buffer := [xd2].

Definition sample_session (uid : Buffer) : SessionTokenData :=
  mkSessionTokenData (VBuf [x77]) uid (VNum 5000) (VStr "Firefox") VUndefined
    (VStr "Linux") VNull (VStr "").

Definition bind_to (id : Buffer) : DeviceInfo :=
  mkDeviceInfo (Some id) (VStr "laptop") VUndefined VUndefined VUndefined (VStr "").

(** Account A, created from a new object (which gets address 0). *)
Definition account_A_ops : list Op :=
  [NewObject (sample_account "a@x.org" None); CreateAccount uidA 0].

(** One account with a device bound to its own session token. *)
Definition own_link_ops : list Op :=
  account_A_ops ++
  [CreateSessionToken tok1 (sample_session uidA);
   CreateDevice uidA devD (bind_to tok1)].

(** A device of account A bound to a session token of account B. *)
Definition cross_link_ops : list Op :=
  account_A_ops ++
  [NewObject (sample_account "b@x.org" None); CreateAccount uidB 1;
   CreateSessionToken tok1 (sample_session uidB);
   CreateDevice uidA devD (bind_to tok1)].

(** Two devices of one account, each bound to its own session token. *)
Definition two_links_ops : list Op :=
  account_A_ops ++
  [CreateSessionToken tok1 (sample_session uidA);
   CreateSessionToken tok2 (sample_session uidA);
   CreateDevice uidA devD (bind_to tok1);
   CreateDevice uidA devE (bind_to tok2)].

(** The object account A was created from is handed to [createAccount] a
    second time, after a device of A has been bound to a session token of
    A. *)
Definition same_object_again_ops : list Op :=
  own_link_ops ++ [CreateAccount uidA 0].

(** An account without openId next to one whose openId is the string
    [undefined]. *)
Definition undefined_openId_ops : list Op :=
  account_A_ops ++
  [NewObject (sample_account "b@x.org" (Some "undefined")); CreateAccount uidB 1].

(** An account created from an object without verifyHash. *)
Definition no_verifyHash_ops : list Op :=
  [NewObject (acct_set_verifyHash None (sample_account "a@x.org" None));
   CreateAccount uidA 0].

Definition sample_forgot (uid : Buffer) : PasswordForgotToken :=
  mkPasswordForgotToken (VBuf [x01]) uid (VBuf [x02]) (VNum 3) (VNum 7000).

Definition sample_reset (uid : Buffer) : AccountResetToken :=
  mkAccountResetToken (VBuf [x03]) uid (VNum 8000).

(** Account A, locked, with a password-forgot token and an earlier
    account-reset token. *)
Definition forgot_ops : list Op :=
  account_A_ops ++
  [LockAccount uidA (VNum 6000) (VBuf [x09]);
   CreateAccountResetToken tok2 (sample_reset uidA);
   CreatePasswordForgotToken tok1 (sample_forgot uidA)].

(** The bytes of the string [__proto__]. *)
Definition uidP : Buffer := [x5f; x5f; x70; x72; x6f; x74; x6f; x5f; x5f].

(** An account whose uid, used as a property key, reads [__proto__]: locked,
    then given a password-forgot token. *)
Definition proto_forgot_ops : list Op :=
  [NewObject (sample_account "p@x.org" None); CreateAccount uidP 0;
   LockAccount uidP (VNum 6000) (VBuf [x09]);
   CreatePasswordForgotToken tok1 (sample_forgot uidP)].

(** The bytes of the string [B@X.org]. *)
Definition b_email : Buffer := [x42; x40; x58; x2e; x6f; x72; x67].

(** The bytes of the string [undefined]. *)
Definition undefined_bytes : Buffer := [x75; x6e; x64; x65; x66; x69; x6e; x65; x64].

(** ** Relations between a store and a later one *)

(** Every token of the later store that names a device was in the earlier
    store, with the same owner and naming the same device. *)
Definition sessions_kept (s s' : Store) : Prop :=
  ∀ id t' k, sessionTokens s' !! id = Some t' → st_deviceKey t' = Some k →
    ∃ t, sessionTokens s !! id = Some t ∧ st_deviceKey t = Some k ∧
         st_uid t = st_uid t'.

(** Every device of the earlier store is still there, under the same account
    and key, naming the same session token. *)
Definition devices_kept (s s' : Store) : Prop :=
  ∀ u a, account_at s u = Some a →
    ∃ a', account_at s' u = Some a' ∧
      ∀ k d, devices a !! k = Some d →
        ∃ d', devices a' !! k = Some d' ∧
              dev_sessionTokenId d' = dev_sessionTokenId d.

(** Both sides of the link between device [deviceId] of account [uid] and the
    session token [id] are set. *)
Definition bound (s : Store) (uid deviceId id : Buffer) : Prop :=
  ∃ a d t, account_at s (hex uid) = Some a ∧ devices a !! hex deviceId = Some d ∧
           dev_sessionTokenId d = Some id ∧
           sessionTokens s !! hex id = Some t ∧
           st_deviceKey t = Some (hex deviceId).

(** [binds_own_session] along a sequence of operations. *)
Fixpoint binds_own_sessions (utf8 : Buffer → string) (ops : list Op) (s : Store) : bool :=
  match ops with
  | [] => true
  | op :: rest =>
      binds_own_session op s && binds_own_sessions utf8 rest (exec utf8 op s)
  end.

(** [well_used] along a sequence of operations. *)
Fixpoint all_well_used (utf8 : Buffer → string) (ops : list Op) (s : Store) : bool :=
  match ops with
  | [] => true
  | op :: rest => well_used op s && all_well_used utf8 rest (exec utf8 op s)
  end.

(** No account object is stored under two keys. *)
Definition unshared (s : Store) : Prop :=
  ∀ k1 k2 r, accounts s !! k1 = Some r → accounts s !! k2 = Some r → k1 = k2.

(** A password-forgot table with at most one row per account. *)
Definition one_per_account (m : gmap string PasswordForgotToken) : Prop :=
  ∀ k1 k2 t1 t2, m !! k1 = Some t1 → m !! k2 = Some t2 →
    pf_uid t1 = pf_uid t2 → k1 = k2.

(** * Properties *)

Lemma hex_pair_inv (b : byte) : unhex_pair (hex_pair b) = Some b.
Proof. destruct b; reflexivity. Qed.

Lemma hex_inj (a b : Buffer) : hex a = hex b → a = b.
Proof.
  revert b; induction a as [|x a IH]; intros [|y b] H; simpl in H; try done.
  injection H as H1 H2 H3.
  assert (Hp : hex_pair x = hex_pair y) by (by apply injective_projections).
  assert (Hxy : Some x = Some y) by (by rewrite <- !hex_pair_inv, Hp).
  injection Hxy as ->. f_equal. by apply IH.
Qed.

Lemma hex_nil (b : Buffer) : hex b = "" ↔ b = [].
Proof. split; [|by intros ->]. by destruct b. Qed.

Example hex_sample : hex [x00; x0f; xa5; xff] = "000fa5ff".
Proof. reflexivity. Qed.

Example run_own_link :
  (sessionTokens (run sample_utf8 own_link_ops empty_store) !! "c1")
    ≫= st_deviceKey = Some "d1".
Proof. vm_compute. reflexivity. Qed.

(** ** Keys and [Object.prototype] *)

Lemma is_hex_hex (b : Buffer) : is_hex (hex b) = true.
Proof.
  induction b as [|x b IH]; [done|].
  simpl. rewrite IH. by destruct x.
Qed.

(** No hexadecimal rendering names a property of [Object.prototype], and
    none is the text an inherited value is converted to: a table keyed by
    such renderings is read through its own properties only. *)
Lemma hex_not_inherited (b : Buffer) (key : string) :
  inherited key = true → hex b ≠ key ∧ hex b ≠ inherited_toString key.
Proof.
  intros Hkey.
  assert (is_hex key = false ∧ is_hex (inherited_toString key) = false) as [H1 H2].
  { unfold inherited in Hkey. simpl in Hkey.
    repeat (apply orb_prop in Hkey as [Hkey%String.eqb_eq | Hkey];
            [subst key; by vm_compute|]).
    done. }
  split; intros Heq; by rewrite <- Heq, is_hex_hex in *.
Qed.

Example inherited_sample :
  inherited "constructor" = true ∧ inherited "__defineGetter__" = true ∧
  inherited "a@x.org" = false ∧
  inherited_toString "constructor" = "function Object() { [native code] }" ∧
  inherited_toString "valueOf" = "function valueOf() { [native code] }".
Proof. by vm_compute. Qed.

(** ** Reading accounts *)

Lemma getAccountByUid_buffer (uid : Buffer) (s : Store) :
  getAccountByUid (UidBuffer uid) s =
  match accounts s !! hex uid with
  | Some r =>
      match objects s !! r with
      | Some a => Resolve (r, a)
      | None => Reject NotFound
      end
  | None => Reject NotFound
  end.
Proof. reflexivity. Qed.

Lemma getAccountByUid_Resolve (uid : UidArg) (s : Store) (r : Ref) (a : Account) :
  getAccountByUid uid s = Resolve (r, a) →
  accounts s !! uid_toString_hex uid = Some r ∧ objects s !! r = Some a ∧
  account_at s (uid_toString_hex uid) = Some a.
Proof.
  unfold getAccountByUid, account_at. destruct (uid_falsy uid); [done|].
  destruct (accounts s !! _) as [r'|]; [|done]. simpl.
  destruct (objects s !! r') as [a'|] eqn:Ha; [|done].
  by intros [= <- <-].
Qed.

(** The two outcomes of [getAccountByUid] on a Buffer. *)
Lemma getAccountByUid_cases (uid : Buffer) (s : Store) :
  (∃ r a, accounts s !! hex uid = Some r ∧ objects s !! r = Some a ∧
          account_at s (hex uid) = Some a ∧
          getAccountByUid (UidBuffer uid) s = Resolve (r, a)) ∨
  (account_at s (hex uid) = None ∧
   getAccountByUid (UidBuffer uid) s = Reject NotFound).
Proof.
  rewrite getAccountByUid_buffer. unfold account_at.
  destruct (accounts s !! hex uid) as [r|]; simpl; [|by right].
  destruct (objects s !! r) as [a|] eqn:Ha; [|by right].
  left. by exists r, a.
Qed.

Lemma account_at_Some (s : Store) (k : string) (a : Account) :
  account_at s k = Some a ↔ ∃ r, accounts s !! k = Some r ∧ objects s !! r = Some a.
Proof.
  unfold account_at. destruct (accounts s !! k) as [r|]; simpl.
  - split; [by exists r | by intros (r' & [= <-] & ?)].
  - split; [done | by intros (r' & ? & ?)].
Qed.

(** Reading the accounts after a write to the object at [r]. *)
Lemma account_at_unfold (s : Store) (k : string) :
  account_at s k = accounts s !! k ≫= λ r, objects s !! r.
Proof. reflexivity. Qed.

Lemma account_at_write_eq (s : Store) (r : Ref) (a a' : Account) (k : string) :
  objects s !! r = Some a → accounts s !! k = Some r →
  account_at (write_object r a' s) k = Some a'.
Proof.
  intros Ha Hk. rewrite account_at_unfold.
  change (accounts (write_object r a' s)) with (accounts s).
  change (objects (write_object r a' s)) with (<[r := a']> (objects s)).
  rewrite Hk. simpl. apply list_lookup_insert_eq. by eapply lookup_lt_Some.
Qed.

Lemma account_at_write_ne (s : Store) (r : Ref) (a' : Account) (k : string) :
  accounts s !! k ≠ Some r →
  account_at (write_object r a' s) k = account_at s k.
Proof.
  intros Hk. rewrite !account_at_unfold.
  change (accounts (write_object r a' s)) with (accounts s).
  change (objects (write_object r a' s)) with (<[r := a']> (objects s)).
  destruct (accounts s !! k) as [r'|]; simpl; [|done].
  apply list_lookup_insert_ne. congruence.
Qed.

(** A write that keeps the object's devices keeps every account's. *)
Lemma account_at_write_cases (s : Store) (r : Ref) (a a' : Account) (k : string) :
  objects s !! r = Some a →
  account_at (write_object r a' s) k = Some a' ∧ account_at s k = Some a ∨
  account_at (write_object r a' s) k = account_at s k ∧ accounts s !! k ≠ Some r.
Proof.
  intros Ha. destruct (decide (accounts s !! k = Some r)) as [Hk|Hk].
  - left. split; [by eapply account_at_write_eq|].
    rewrite account_at_unfold, Hk. done.
  - right. split; [by apply account_at_write_ne | done].
Qed.

Lemma String_eqb_hex (a b : Buffer) :
  String.eqb (hex a) (hex b) = true ↔ a = b.
Proof.
  rewrite String.eqb_eq. split; [apply hex_inj | by intros ->].
Qed.

(** C3, as stated, fails: the store accepts an account without verifyHash
    (from [createAccount], also from [resetAccount]); on such an account the
    comparison dereferences the missing hash, and the call aborts with a
    TypeError instead of rejecting with IncorrectPassword. *)
Lemma checkPassword_counterexample :
  let s := run sample_utf8 no_verifyHash_ops empty_store in
  reachable sample_utf8 s ∧
  (verifyHash <$> account_at s (hex uidA)) = Some None ∧
  checkPassword uidA [x11; x22] s = Reject TypeError ∧
  checkPassword uidA [x11; x22] s ≠ Reject IncorrectPassword.
Proof.
  intros s. split_and!.
  - unfold s. generalize no_verifyHash_ops. intros ops.
    assert (∀ s0, reachable sample_utf8 s0 → reachable sample_utf8 (run sample_utf8 ops s0))
      as Hrun.
    { induction ops as [|op ops IH]; intros s0 Hs0; [done|].
      simpl. apply IH. by constructor. }
    apply Hrun. constructor.
  - vm_compute. reflexivity.
  - vm_compute. reflexivity.
  - vm_compute. discriminate.
Qed.

(** C3, amended.  [checkPassword] rejects with IncorrectPassword when no
    account is stored under the uid, and when the account is there with a
    verify hash that differs from the supplied one; when the account is there
    without a verify hash the call aborts with a TypeError; it never rejects
    with NotFound; it resolves, with the uid, exactly when the account is
    there and its stored verify hash is the supplied one, byte for byte. *)
Theorem checkPassword_outcomes (s : Store) (uid hash : Buffer) :
  (account_at s (hex uid) = None →
   checkPassword uid hash s = Reject IncorrectPassword) ∧
  (∀ a stored, account_at s (hex uid) = Some a → verifyHash a = Some stored →
     stored ≠ hash → checkPassword uid hash s = Reject IncorrectPassword) ∧
  (∀ a, account_at s (hex uid) = Some a → verifyHash a = None →
     checkPassword uid hash s = Reject TypeError) ∧
  checkPassword uid hash s ≠ Reject NotFound ∧
  (∀ r, checkPassword uid hash s = Resolve r ↔
        r = uid ∧ ∃ a, account_at s (hex uid) = Some a ∧ verifyHash a = Some hash).
Proof.
  unfold checkPassword.
  destruct (getAccountByUid_cases uid s) as [(r0 & a & _ & _ & Hat & ->) | [Hat ->]];
    rewrite Hat.
  - destruct (verifyHash a) as [stored|] eqn:Hv.
    + destruct (String.eqb (hex stored) (hex hash)) eqn:Heq.
      * apply String_eqb_hex in Heq as ->.
        split_and!; [done | | | done |].
        -- intros a' stored' [= <-] Hv' Hne. congruence.
        -- intros a' [= <-] Hv'. congruence.
        -- intros r; split; [intros [= <-]; eauto | by intros [-> _]].
      * assert (stored ≠ hash) as Hne.
        { intros ->. by rewrite (proj2 (String_eqb_hex hash hash)) in Heq. }
        split_and!; [done | done | | done |].
        -- intros a' [= <-] Hv'. congruence.
        -- intros r; split; [done|].
           intros (_ & a' & [= <-] & Hv'). congruence.
    + split_and!; [done | | done | done |].
      * intros a' stored' [= <-] Hv'. congruence.
      * intros r; split; [done|].
        intros (_ & a' & [= <-] & Hv'). congruence.
  - split_and!; [done | done | done | done |].
    intros r; split; [done|]. intros (_ & a' & ? & _). done.
Qed.

(** The right hash, a wrong hash and an unknown uid, on a store holding
    account A. *)
Lemma checkPassword_outcomes_witness :
  let s := run sample_utf8 account_A_ops empty_store in
  checkPassword uidA [x11; x22] s = Resolve uidA ∧
  checkPassword uidA [x11; x23] s = Reject IncorrectPassword ∧
  checkPassword uidB [x11; x22] s = Reject IncorrectPassword.
Proof.
  intros s. split_and!.
  - apply (checkPassword_outcomes s uidA [x11; x22]).
    split; [reflexivity|]. eexists. split; vm_compute; reflexivity.
  - apply (proj1 (proj2 (checkPassword_outcomes s uidA [x11; x23]))
             (acct_set_lockedAt VNull (sample_account "a@x.org" None)) [x11; x22]);
      [reflexivity | reflexivity | discriminate].
  - apply (checkPassword_outcomes s uidB [x11; x22]). reflexivity.
Defined.

(** C7.  Every read that surfaces an account resolves with a view of the
    stored account it looked up ([account]: the one under the uid;
    [emailRecord], [openIdRecord]: the one under the key that the index
    lookup gives) in which the verifyHash property is absent and every other
    field is the stored one. *)
Theorem account_reads_strip_verifyHash
  (utf8 : Buffer → string) (toLowerCase : string → string)
  (s : Store) (b : Buffer) (item : Account) :
  (account b s = Resolve item →
   verifyHash item = None ∧
   ∃ a, account_at s (hex b) = Some a ∧ same_but_verifyHash item a) ∧
  (emailRecord utf8 toLowerCase b s = Resolve item →
   verifyHash item = None ∧
   ∃ a, account_at s
          (uid_toString_hex
             (index_entry (uidByNormalizedEmail s) (toLowerCase (utf8 b))))
        = Some a ∧ same_but_verifyHash item a) ∧
  (openIdRecord utf8 b s = Resolve item →
   verifyHash item = None ∧
   ∃ a, account_at s (uid_toString_hex (index_entry (uidByOpenId s) (utf8 b)))
        = Some a ∧ same_but_verifyHash item a).
Proof.
  unfold account, emailRecord, openIdRecord, filterAccount.
  split_and!.
  - destruct (getAccountByUid (UidBuffer b) s) as [[r a]|] eqn:Hget; [|done].
    intros [= <-]. apply getAccountByUid_Resolve in Hget as (_ & _ & Hat).
    split; [done|]. exists a. split; [done|]. by repeat split.
  - cbv zeta.
    destruct (getAccountByUid _ s) as [[r a]|] eqn:Hget; [|done].
    intros [= <-]. apply getAccountByUid_Resolve in Hget as (_ & _ & Hat).
    split; [done|]. exists a. split; [done|]. by repeat split.
  - destruct (getAccountByUid _ s) as [[r a]|] eqn:Hget; [|done].
    intros [= <-]. apply getAccountByUid_Resolve in Hget as (_ & _ & Hat).
    split; [done|]. exists a. split; [done|]. by repeat split.
Qed.

(** The three reads on the store holding account B, whose openId is the
    string [undefined] and whose normalized email is [b@x.org]. *)
Lemma account_reads_strip_verifyHash_witness :
  let s := run sample_utf8 undefined_openId_ops empty_store in
  let item :=
    acct_set_verifyHash None
      (acct_set_lockedAt VNull (sample_account "b@x.org" (Some "undefined"))) in
  (account uidB s = Resolve item ∧
   emailRecord sample_utf8 lower b_email s = Resolve item ∧
   openIdRecord sample_utf8 undefined_bytes s = Resolve item) ∧
  verifyHash item = None ∧
  ∃ a, account_at s (hex uidB) = Some a ∧ same_but_verifyHash item a.
Proof.
  intros s item.
  assert (account uidB s = Resolve item) as Hread by (vm_compute; reflexivity).
  split.
  - split_and!; [exact Hread | vm_compute; reflexivity..].
  - exact (proj1 (account_reads_strip_verifyHash sample_utf8 lower s uidB item) Hread).
Defined.

(** ** Session tokens *)

(** C10.  [createSessionToken] succeeds for any owner uid as long as the
    token identifier is free: it never looks at the accounts.  A later
    [sessionToken] read of a stored token resolves exactly when the owning
    account is in the store; when it is not, dereferencing the missing
    account aborts the read with a TypeError. *)
Theorem sessionToken_needs_owner (s : Store) (tokenId : Buffer) (data : SessionTokenData) :
  sessionTokens s !! hex tokenId = None →
  (createSessionToken tokenId data s).1 = Resolve () ∧
  accounts (createSessionToken tokenId data s).2 = accounts s ∧
  objects (createSessionToken tokenId data s).2 = objects s ∧
  ∀ s', sessionTokens s' !! hex tokenId =
          sessionTokens (createSessionToken tokenId data s).2 !! hex tokenId →
    ((∃ item, sessionToken tokenId s' = Resolve item) ↔
       is_Some (account_at s' (hex (std_uid data)))) ∧
    (account_at s' (hex (std_uid data)) = None →
     sessionToken tokenId s' = Reject TypeError).
Proof.
  intros Hfree. unfold createSessionToken. rewrite Hfree. simpl.
  split; [done|]. split; [done|]. split; [done|].
  intros s' Hrow. rewrite lookup_insert_eq in Hrow.
  unfold sessionToken. rewrite Hrow. simpl.
  destruct (account_at s' (hex (std_uid data))) as [a|]; split.
  - split; eauto.
  - done.
  - split; [by intros [? ?] | by intros [? ?]].
  - done.
Qed.

(** A token created for an account that does not exist, then read. *)
Lemma sessionToken_needs_owner_witness :
  (createSessionToken tok1 (sample_session uidA) empty_store).1 = Resolve () ∧
  sessionToken tok1 (createSessionToken tok1 (sample_session uidA) empty_store).2
  = Reject TypeError.
Proof.
  destruct (sessionToken_needs_owner empty_store tok1 (sample_session uidA))
    as (Hok & _ & _ & Hread); [reflexivity|].
  split; [exact Hok|].
  apply (Hread _ eq_refl). reflexivity.
Defined.

Lemma or_null_truthy (v : value) : truthy v = true → or_null v = v.
Proof. unfold or_null. by intros ->. Qed.

Lemma or_null_falsy (v : value) : truthy v = false → or_null v = VNull.
Proof. unfold or_null. by intros ->. Qed.

(** C8, as stated, fails: a user-agent field supplied as the empty string
    (or left undefined) is read back as null. *)
Lemma sessionToken_roundtrip_counterexample :
  let s := run sample_utf8 account_A_ops empty_store in
  let data := sample_session uidA in
  (createSessionToken tok1 data s).1 = Resolve () ∧
  std_uaDeviceType data = VStr "" ∧
  ∃ item, sessionToken tok1 (createSessionToken tok1 data s).2 = Resolve item ∧
          sti_uaDeviceType item = VNull ∧
          sti_ua item ≠ std_ua data.
Proof.
  split; [reflexivity|]. split; [reflexivity|].
  eexists. split; [vm_compute; reflexivity|]. split; [reflexivity|].
  vm_compute. discriminate.
Qed.

(** C8, amended.  After a successful [createSessionToken], a [sessionToken]
    read of the same identifier, made while the row is as created and the
    owning account is in the store, resolves with: each user-agent field as
    supplied when that field is truthy and null otherwise; lastAccessTime
    equal to the supplied createdAt; the supplied data, uid and createdAt; and
    the joined account fields equal to the account's values at read time. *)
Theorem sessionToken_roundtrip (s s' : Store) (tokenId : Buffer)
  (data : SessionTokenData) (a : Account) :
  (createSessionToken tokenId data s).1 = Resolve () →
  sessionTokens s' !! hex tokenId =
    sessionTokens (createSessionToken tokenId data s).2 !! hex tokenId →
  account_at s' (hex (std_uid data)) = Some a →
  ∃ item, sessionToken tokenId s' = Resolve item ∧
    Forall2 (λ got supplied, got = if truthy supplied then supplied else VNull)
      (sti_ua item) (std_ua data) ∧
    sti_lastAccessTime item = std_createdAt data ∧
    sti_tokenData item = std_data data ∧ sti_uid item = std_uid data ∧
    sti_createdAt item = std_createdAt data ∧
    joined_with item a.
Proof.
  unfold createSessionToken.
  destruct (sessionTokens s !! hex tokenId) eqn:Hfree; [done|]. simpl.
  intros _ Hrow Ha. rewrite lookup_insert_eq in Hrow.
  unfold sessionToken. rewrite Hrow. simpl. rewrite Ha.
  eexists. split; [done|]. simpl.
  split; [|by repeat split].
  unfold sti_ua, std_ua. simpl. by repeat constructor.
Qed.

(** The Firefox-on-Linux token of account A, read back. *)
Lemma sessionToken_roundtrip_witness :
  let s := run sample_utf8 account_A_ops empty_store in
  ∃ item,
    sessionToken tok1 (createSessionToken tok1 (sample_session uidA) s).2 = Resolve item ∧
    sti_uaBrowser item = VStr "Firefox" ∧ sti_uaOS item = VStr "Linux" ∧
    sti_lastAccessTime item = VNum 5000 ∧ sti_email item = VStr "a@x.org".
Proof.
  intros s.
  destruct (sessionToken_roundtrip s (createSessionToken tok1 (sample_session uidA) s).2
              tok1 (sample_session uidA)
              (acct_set_lockedAt VNull (sample_account "a@x.org" None)))
    as (item & Hread & Hua & Hlast & _ & _ & _ & Hjoin);
    [reflexivity | reflexivity | reflexivity |].
  exists item. split; [exact Hread|].
  inversion Hua as [|? ? ? ? Hb Hrest]; subst.
  inversion Hrest as [|? ? ? ? _ Hrest2]; subst.
  inversion Hrest2 as [|? ? ? ? Hos _]; subst.
  destruct Hjoin as (_ & Hemail & _).
  exact (conj Hb (conj Hos (conj Hlast Hemail))).
Defined.

(** C9.  [deleteSessionToken] resolves and changes the session-token table
    only, by removing the token: the accounts with their devices, the indices
    and the other token tables are as before.  A device that names the
    deleted token keeps its sessionTokenId, and [accountDevices] still lists
    it, unchanged. *)
Theorem deleteSessionToken_frame (s : Store) (tokenId : Buffer) :
  (deleteSessionToken tokenId s).1 = Resolve () ∧
  sessionTokens (deleteSessionToken tokenId s).2 = delete (hex tokenId) (sessionTokens s) ∧
  set_sessionTokens (sessionTokens s) (deleteSessionToken tokenId s).2 = s ∧
  ∀ uid a deviceKey d,
    account_at s (hex uid) = Some a → devices a !! deviceKey = Some d →
    dev_sessionTokenId d = Some tokenId →
    ∃ listing, (accountDevices uid (deleteSessionToken tokenId s).2).1 = Resolve listing ∧
               d ∈ listing.
Proof.
  assert (sessionTokens (deleteSessionToken tokenId s).2
          = delete (hex tokenId) (sessionTokens s)) as Hdel.
  { unfold deleteSessionToken.
    destruct (sessionTokens s !! hex tokenId) eqn:Hrow; simpl; [done|].
    by rewrite delete_id. }
  assert (accounts (deleteSessionToken tokenId s).2 = accounts s ∧
          objects (deleteSessionToken tokenId s).2 = objects s) as [Hacc Hobj].
  { unfold deleteSessionToken. by destruct (sessionTokens s !! hex tokenId). }
  split_and!.
  - unfold deleteSessionToken. by destruct (sessionTokens s !! hex tokenId).
  - done.
  - unfold deleteSessionToken.
    destruct (sessionTokens s !! hex tokenId); by destruct s.
  - intros uid a deviceKey d Ha Hd Hid.
    apply account_at_Some in Ha as (r & Hr & Ha).
    unfold accountDevices. rewrite getAccountByUid_buffer, Hacc, Hr, Hobj, Ha. simpl.
    eexists. split; [done|].
    apply list_elem_of_fmap. exists (deviceKey, d). split; [done|].
    apply elem_of_map_to_list. rewrite lookup_fmap, Hd. simpl. f_equal.
    unfold refresh_device. rewrite Hid. simpl.
    by rewrite Hdel, lookup_delete_eq.
Qed.

(** The device of account A after the session token it is bound to has
    been deleted. *)
Lemma deleteSessionToken_frame_witness :
  let s := run sample_utf8 own_link_ops empty_store in
  let s' := (deleteSessionToken tok1 s).2 in
  sessionTokens s' !! hex tok1 = None ∧
  ∃ listing d, (accountDevices uidA s').1 = Resolve listing ∧ d ∈ listing ∧
               dev_id d = devD ∧ dev_sessionTokenId d = Some tok1.
Proof.
  intros s s'.
  destruct (deleteSessionToken_frame s tok1) as (_ & Hdel & _ & Hlist).
  split.
  - fold s' in Hdel. rewrite Hdel. apply lookup_delete_eq.
  - assert (∃ a d, account_at s (hex uidA) = Some a ∧ devices a !! hex devD = Some d ∧
                   dev_id d = devD ∧ dev_sessionTokenId d = Some tok1)
      as (a & d & Ha & Hd & Hdev & Hid)
      by (vm_compute; eexists _, _; split_and!; reflexivity).
    destruct (Hlist uidA a (hex devD) d Ha Hd Hid) as (listing & Hl & Hin).
    exists listing, d. exact (conj Hl (conj Hin (conj Hdev Hid))).
Defined.

(** ** Workflow tokens *)

Lemma lookup_deleteByUid {A} `{HasUid A} (uid k : string) (m : gmap string A) (x : A) :
  deleteByUid uid m !! k = Some x ↔ m !! k = Some x ∧ hex (uid_of x) ≠ uid.
Proof. unfold deleteByUid. by rewrite map_lookup_filter_Some. Qed.

Lemma lookup_deleteByUid_None {A} `{HasUid A} (uid k : string) (m : gmap string A) :
  deleteByUid uid m !! k = None ↔ ∀ x, m !! k = Some x → hex (uid_of x) = uid.
Proof.
  unfold deleteByUid. rewrite map_lookup_filter_None. split.
  - intros [Hn|Hall] x Hx; [congruence|].
    specialize (Hall x Hx). simpl in Hall.
    by destruct (decide (hex (uid_of x) = uid)).
  - intros Hall. destruct (m !! k) as [x|] eqn:Hx; [right|by left].
    intros y [= <-]. simpl. intros Hne. by apply Hne, Hall.
Qed.

(** C6.  When the account of [token] already holds a password-forgot token
    under [old], a successful [createPasswordForgotToken] for that account
    under a new identifier removes the old row, leaves the new row as the
    only one of the account, and makes a read of the old identifier fail with
    NotFound.  The create fails with Duplicate, changing nothing, when a row
    is already stored under the new identifier. *)
Theorem createPasswordForgotToken_replaces (s : Store) (tokenId old : Buffer)
  (token previous : PasswordForgotToken) :
  passwordForgotTokens s !! hex old = Some previous →
  pf_uid previous = pf_uid token →
  (is_Some (passwordForgotTokens s !! hex tokenId) →
   createPasswordForgotToken tokenId token s = (Reject Duplicate, s)) ∧
  ((createPasswordForgotToken tokenId token s).1 = Resolve () →
   let s' := (createPasswordForgotToken tokenId token s).2 in
   passwordForgotTokens s' !! hex old = None ∧
   passwordForgotToken old s' = Reject NotFound ∧
   passwordForgotTokens s' !! hex tokenId = Some token ∧
   (∀ k t, passwordForgotTokens s' !! k = Some t → pf_uid t = pf_uid token →
           k = hex tokenId) ∧
   (one_per_account (passwordForgotTokens s) →
    one_per_account (passwordForgotTokens s'))).
Proof.
  intros Hold Huid. unfold createPasswordForgotToken.
  destruct (passwordForgotTokens s !! hex tokenId) as [row|] eqn:Hnew; simpl.
  - split; [done|]. done.
  - split; [by intros [? ?]|]. intros _.
    assert (hex old ≠ hex tokenId) as Hne by congruence.
    assert (<[hex tokenId:=token]>
              (deleteByUid (hex (pf_uid token)) (passwordForgotTokens s)) !! hex old
            = None) as Hgone.
    { rewrite lookup_insert_ne by done.
      apply lookup_deleteByUid_None. intros x Hx.
      rewrite Hold in Hx. injection Hx as <-. by rewrite <- Huid. }
    assert (∀ k t,
              <[hex tokenId:=token]>
                (deleteByUid (hex (pf_uid token)) (passwordForgotTokens s)) !! k
              = Some t → pf_uid t = pf_uid token → k = hex tokenId) as Honly.
    { intros k t Hk Hu.
      destruct (decide (k = hex tokenId)) as [|Hk']; [done|].
      rewrite lookup_insert_ne in Hk by done.
      apply lookup_deleteByUid in Hk as [_ Hk]. exfalso. apply Hk.
      unfold uid_of, PasswordForgotToken_uid. by rewrite Hu. }
    split_and!.
    + done.
    + unfold passwordForgotToken. simpl. by rewrite Hgone.
    + by rewrite lookup_insert_eq.
    + done.
    + intros Hone k1 k2 t1 t2 H1 H2 Hu.
      destruct (decide (k1 = hex tokenId)) as [->|Hk1];
        destruct (decide (k2 = hex tokenId)) as [->|Hk2]; [done | | |].
      * rewrite lookup_insert_eq in H1. injection H1 as <-. symmetry. eauto.
      * rewrite lookup_insert_eq in H2. injection H2 as <-. eauto.
      * rewrite lookup_insert_ne in H1, H2 by done.
        apply lookup_deleteByUid in H1 as [H1 _], H2 as [H2 _]. eauto.
Qed.

(** Account A replaces its password-forgot token [tok1] by [tok2]. *)
Lemma createPasswordForgotToken_replaces_witness :
  let s := run sample_utf8 forgot_ops empty_store in
  let s' := (createPasswordForgotToken tok2 (sample_forgot uidA) s).2 in
  passwordForgotTokens s' !! hex tok1 = None ∧
  passwordForgotToken tok1 s' = Reject NotFound ∧
  passwordForgotTokens s' !! hex tok2 = Some (sample_forgot uidA) ∧
  (∀ k t, passwordForgotTokens s' !! k = Some t → pf_uid t = uidA → k = hex tok2) ∧
  (one_per_account (passwordForgotTokens s) →
   one_per_account (passwordForgotTokens s')).
Proof.
  intros s.
  destruct (createPasswordForgotToken_replaces s tok2 tok1 (sample_forgot uidA)
              (sample_forgot uidA)) as [_ H]; [reflexivity | reflexivity |].
  apply H. reflexivity.
Defined.




(** ** Accounts and their indices *)

Lemma str_truthy_hex (b : Buffer) : b ≠ [] → str_truthy (hex b) = true.
Proof. by destruct b. Qed.

(** What [createAccount] writes on its payload before any check. *)
Lemma createAccount_payload (payload : Account) :
  let payload' := acct_set_lockedAt VNull (acct_set_devices ∅ payload) in
  devices payload' = ∅ ∧ lockedAt payload' = VNull ∧
  same_but_devices_lockedAt payload' payload.
Proof. by repeat split. Qed.

(** The outcomes of [createAccount] on an object: in both, the object has
    been written; the tables change only when the call resolves. *)
Lemma createAccount_cases (uid : Buffer) (data : Ref) (s : Store) (payload : Account) :
  objects s !! data = Some payload →
  let payload' := acct_set_lockedAt VNull (acct_set_devices ∅ payload) in
  let s0 := write_object data payload' s in
  let r := createAccount uid data s in
  r.1 = Resolve () ∧
    account_at s0 (hex uid) = None ∧
    index_truthy (uidByNormalizedEmail s) (normalizedEmail payload) = false ∧
    (∀ o, openId payload = Some o → str_truthy o = true →
          index_truthy (uidByOpenId s) o = false ∧
          uidByOpenId r.2 = <[o := hex uid]> (uidByOpenId s)) ∧
    ((openId payload = None ∨ openId payload = Some "") → uidByOpenId r.2 = uidByOpenId s) ∧
    objects r.2 = <[data := payload']> (objects s) ∧
    accounts r.2 = <[hex uid := data]> (accounts s) ∧
    uidByNormalizedEmail r.2
      = <[normalizedEmail payload := hex uid]> (uidByNormalizedEmail s) ∧
    sessionTokens r.2 = sessionTokens s ∧
    accountUnlockCodes r.2 = accountUnlockCodes s
  ∨
  r.1 = Reject Duplicate ∧ r.2 = s0 ∧
    (is_Some (account_at s0 (hex uid)) ∨
     index_truthy (uidByNormalizedEmail s) (normalizedEmail payload) = true ∨
     ∃ o, openId payload = Some o ∧ str_truthy o = true ∧
          index_truthy (uidByOpenId s) o = true).
Proof.
  intros Hdata. cbv zeta. unfold createAccount. rewrite Hdata. cbv zeta.
  change (normalizedEmail (acct_set_lockedAt VNull (acct_set_devices ∅ payload)))
    with (normalizedEmail payload).
  change (openId (acct_set_lockedAt VNull (acct_set_devices ∅ payload)))
    with (openId payload).
  set (payload' := acct_set_lockedAt VNull (acct_set_devices ∅ payload)).
  set (s0 := write_object data payload' s).
  change (uidByNormalizedEmail s0) with (uidByNormalizedEmail s).
  change (uidByOpenId s0) with (uidByOpenId s).
  destruct (account_at s0 (hex uid)) as [a|] eqn:Hrow.
  { right. split_and!; [done..|]. left. eauto. }
  destruct (index_truthy (uidByNormalizedEmail s) (normalizedEmail payload)) eqn:Hidx.
  { right. split_and!; [done..|]. right. by left. }
  destruct (openId payload) as [o|] eqn:Ho.
  - destruct (str_truthy o) eqn:Hto.
    + destruct (index_truthy (uidByOpenId s) o) eqn:Hoid.
      * right. split_and!; [done..|]. right. right. by exists o.
      * left. simpl. split_and!; try done.
        -- by intros o' [= <-] _.
        -- intros [?|[= ->]]; done.
    + left. simpl. split_and!; try done.
      intros o' [= <-] ?. congruence.
  - left. simpl. split_and!; try done.
Qed.

(** A normalizedEmail that names a property of [Object.prototype] is taken
    for indexed although the index has no entry for it: [createAccount]
    rejects it with Duplicate, on the empty store too. *)
Lemma createAccount_inherited_email (uid : Buffer) (data : Ref) (s : Store)
  (payload : Account) :
  objects s !! data = Some payload →
  inherited (normalizedEmail payload) = true →
  uidByNormalizedEmail s !! normalizedEmail payload = None →
  (createAccount uid data s).1 = Reject Duplicate.
Proof.
  intros Hdata Hin Hown.
  destruct (createAccount_cases uid data s payload Hdata)
    as [(_ & _ & Hfalse & _) | (Hrej & _)]; [|done].
  unfold index_truthy, index_entry in Hfalse. by rewrite Hown, Hin in Hfalse.
Qed.

(** Handed an object that is in the store, [createAccount] empties the
    devices of the account stored under every key that holds the object and
    sets its lockedAt to null, whether it then resolves or rejects. *)
Lemma createAccount_stored_object (uid : Buffer) (data : Ref) (s : Store)
  (k : string) (a : Account) :
  accounts s !! k = Some data → objects s !! data = Some a →
  ∃ a', account_at (createAccount uid data s).2 k = Some a' ∧
        devices a' = ∅ ∧ lockedAt a' = VNull ∧ same_but_devices_lockedAt a' a.
Proof.
  intros Hk Hdata.
  exists (acct_set_lockedAt VNull (acct_set_devices ∅ a)).
  split; [|apply createAccount_payload].
  destruct (createAccount_cases uid data s a Hdata)
    as [(_ & _ & _ & _ & _ & Hobj & Hacc & _) | (_ & -> & _)].
  - rewrite account_at_unfold, Hacc, Hobj.
    assert (<[hex uid:=data]> (accounts s) !! k = Some data) as ->.
    { destruct (decide (hex uid = k)) as [->|Hne];
        [apply lookup_insert_eq | by rewrite lookup_insert_ne]. }
    simpl. apply list_lookup_insert_eq. by eapply lookup_lt_Some.
  - by eapply account_at_write_eq.
Qed.

Lemma index_truthy_own (index : gmap string string) (key : string) (uid : Buffer) :
  index !! key = Some (hex uid) → uid ≠ [] → index_truthy index key = true.
Proof.
  intros Hkey Hne. unfold index_truthy, index_entry. rewrite Hkey. simpl.
  apply negb_true_iff, String.eqb_neq. by rewrite hex_nil.
Qed.

(** C2, as stated, fails: [createAccount] indexes the normalizedEmail it is
    given and folds no case itself, so two accounts whose supplied emails
    differ only in case are both created, and the index holds both keys. *)
Lemma createAccount_case_counterexample :
  let d1 := sample_account "A@x.org" None in
  let d2 := sample_account "a@x.org" None in
  let s0 := (new_object d2 (new_object d1 empty_store).2).2 in
  let s1 := (createAccount uidA 0 s0).2 in
  let s2 := (createAccount uidB 1 s1).2 in
  lower (normalizedEmail d1) = lower (normalizedEmail d2) ∧
  email d1 = VStr "A@x.org" ∧ email d2 = VStr "a@x.org" ∧
  objects s0 = [d1; d2] ∧
  (createAccount uidA 0 s0).1 = Resolve () ∧
  (createAccount uidB 1 s1).1 = Resolve () ∧
  uidByNormalizedEmail s2 !! "A@x.org" = Some (hex uidA) ∧
  uidByNormalizedEmail s2 !! "a@x.org" = Some (hex uidB).
Proof. vm_compute. by split_and!. Qed.

(** C2, amended.  For every pair of [createAccount] calls whose payloads
    hold the same normalizedEmail string (whatever their email fields), if
    the first, made with a non-empty uid, succeeds, then it has indexed that
    string under its uid and the second fails with Duplicate.  The second
    call leaves every table as it was; what it has written is its own
    payload, which now has no devices and lockedAt null, its other fields
    being untouched.  So the accounts in the store are as before, unless the
    payload is itself an object that is in the store.  The index is keyed by
    the normalizedEmail the callers supply, as supplied. *)
Theorem createAccount_duplicate_normalizedEmail (s : Store) (uid1 uid2 : Buffer)
  (data1 data2 : Ref) (d1 d2 : Account) :
  uid1 ≠ [] →
  objects s !! data1 = Some d1 →
  (createAccount uid1 data1 s).1 = Resolve () →
  objects (createAccount uid1 data1 s).2 !! data2 = Some d2 →
  normalizedEmail d2 = normalizedEmail d1 →
  let s1 := (createAccount uid1 data1 s).2 in
  let r := createAccount uid2 data2 s1 in
  uidByNormalizedEmail s1 !! normalizedEmail d1 = Some (hex uid1) ∧
  r.1 = Reject Duplicate ∧
  same_tables r.2 s1 ∧
  (∃ d2', objects r.2 = <[data2 := d2']> (objects s1) ∧
          devices d2' = ∅ ∧ lockedAt d2' = VNull ∧
          same_but_devices_lockedAt d2' d2) ∧
  ((∀ k, accounts s1 !! k ≠ Some data2) →
   ∀ k, account_at r.2 k = account_at s1 k).
Proof.
  intros Hne Hd1 Hok Hd2 Heq. cbv zeta.
  destruct (createAccount_cases uid1 data1 s d1 Hd1)
    as [(_ & _ & _ & _ & _ & _ & _ & Hidx & _) | (Hrej & _)]; [|congruence].
  assert (uidByNormalizedEmail (createAccount uid1 data1 s).2 !! normalizedEmail d1
          = Some (hex uid1)) as Hown by (by rewrite Hidx, lookup_insert_eq).
  split; [done|].
  clear Hok Hidx Hd1.
  generalize dependent (createAccount uid1 data1 s).2. intros s1 Hd2 Hown.
  destruct (createAccount_cases uid2 data2 s1 d2 Hd2)
    as [(_ & _ & Hfalse & _) | (Hrej & Hstore & _)].
  { rewrite Heq, (index_truthy_own _ _ uid1) in Hfalse; done. }
  split; [done|]. rewrite Hstore. split_and!.
  - by repeat split.
  - eexists. split; [done|]. apply createAccount_payload.
  - intros Hnew k. by apply account_at_write_ne.
Qed.

(** Two accounts that supply the same normalizedEmail with differently cased
    email fields: the second call is rejected, and has emptied its own
    payload's devices and nothing else. *)
Lemma createAccount_duplicate_normalizedEmail_witness :
  let d1 := sample_account "a@x.org" None in
  let d2 := acct_set_locale (VStr "fr") (sample_account "a@x.org" None) in
  let s0 := (new_object d2 (new_object d1 empty_store).2).2 in
  let s1 := (createAccount uidA 0 s0).2 in
  let r := createAccount uidB 1 s1 in
  uidByNormalizedEmail s1 !! "a@x.org" = Some (hex uidA) ∧
  r.1 = Reject Duplicate ∧
  same_tables r.2 s1 ∧
  account_at r.2 (hex uidA) = account_at s1 (hex uidA).
Proof.
  intros d1 d2 s0 s1 r.
  destruct (createAccount_duplicate_normalizedEmail s0 uidA uidB 0 1 d1 d2)
    as (Hidx & Hrej & Htables & _ & Hrows);
    [discriminate | reflexivity | reflexivity | reflexivity | reflexivity |].
  split_and!; [exact Hidx | exact Hrej | exact Htables |].
  apply Hrows. intros k Hk.
  assert (accounts (createAccount uidA 0 s0).2 = {[hex uidA := 0]}) as Hacc
    by (vm_compute; reflexivity).
  rewrite Hacc in Hk. apply lookup_singleton_Some in Hk as [_ ?]. discriminate.
Defined.

(** C5 fails on the code at this input.  Account A has no openId, account B
    has the openId [undefined]: deleting A deletes the openId index entry
    under the key its absent openId is coerced to, which is B's, so B, still
    in the store, is no longer found by its openId. *)
Theorem deleteAccount_drops_undefined_openId :
  let s := run sample_utf8 undefined_openId_ops empty_store in
  let s' := (deleteAccount uidA s).2 in
  (openId <$> account_at s (hex uidA)) = Some None ∧
  (openId <$> account_at s (hex uidB)) = Some (Some "undefined") ∧
  uidByOpenId s !! "undefined" = Some (hex uidB) ∧
  (deleteAccount uidA s).1 = Resolve () ∧
  account_at s' (hex uidB) = account_at s (hex uidB) ∧
  uidByOpenId s' !! "undefined" = None ∧
  (∃ item, openIdRecord sample_utf8 undefined_bytes s = Resolve item) ∧
  openIdRecord sample_utf8 undefined_bytes s' = Reject NotFound.
Proof. vm_compute. split_and!; eauto. Qed.

(** What [deleteAccount] does hold: the cascade and its frame.  The openId
    index loses the key [property_key (openId a)], which is the account's own
    entry only when the account has an openId. *)
Lemma deleteAccount_cascade (s : Store) (uid : Buffer) (a : Account) :
  account_at s (hex uid) = Some a →
  let s' := (deleteAccount uid s).2 in
  (deleteAccount uid s).1 = Resolve () ∧
  accounts s' = delete (hex uid) (accounts s) ∧
  objects s' = objects s ∧
  uidByNormalizedEmail s' = delete (normalizedEmail a) (uidByNormalizedEmail s) ∧
  uidByOpenId s' = delete (property_key (openId a)) (uidByOpenId s) ∧
  sessionTokens s' = deleteByUid (hex uid) (sessionTokens s) ∧
  keyFetchTokens s' = deleteByUid (hex uid) (keyFetchTokens s) ∧
  accountResetTokens s' = deleteByUid (hex uid) (accountResetTokens s) ∧
  passwordChangeTokens s' = deleteByUid (hex uid) (passwordChangeTokens s) ∧
  passwordForgotTokens s' = deleteByUid (hex uid) (passwordForgotTokens s) ∧
  accountUnlockCodes s' = deleteByUid (hex uid) (accountUnlockCodes s).
Proof.
  intros Ha. apply account_at_Some in Ha as (r & Hr & Ha).
  unfold deleteAccount. rewrite getAccountByUid_buffer, Hr, Ha. simpl.
  by split_and!.
Qed.

Lemma deleteByUid_owned {A} `{HasUid A} (uid : Buffer) (m : gmap string A) (k : string)
  (x : A) :
  deleteByUid (hex uid) m !! k = Some x → uid_of x ≠ uid.
Proof. intros [_ Hne]%lookup_deleteByUid Heq. apply Hne. by rewrite Heq. Qed.

Lemma deleteByUid_frame {A} `{HasUid A} (uid : Buffer) (m : gmap string A) (k : string)
  (x : A) :
  m !! k = Some x → uid_of x ≠ uid → deleteByUid (hex uid) m !! k = Some x.
Proof.
  intros Hk Hne. apply lookup_deleteByUid. split; [done|].
  intros Heq. by apply Hne, hex_inj.
Qed.

Lemma deleteAccount_absent (s : Store) (uid : Buffer) :
  account_at s (hex uid) = None → deleteAccount uid s = (Reject NotFound, s).
Proof.
  intros Ha. unfold deleteAccount.
  by destruct (getAccountByUid_cases uid s) as [(r & a & _ & _ & Hat & ->) | [_ ->]];
    [congruence|].
Qed.

(** ** The session/device link *)

Lemma linked_transfer (s s' : Store) :
  linked s →
  (∀ id t' k, sessionTokens s' !! id = Some t' → st_deviceKey t' = Some k → k ≠ "" →
     (∃ a' d', account_at s' (hex (st_uid t')) = Some a' ∧ devices a' !! k = Some d' ∧
               hex <$> dev_sessionTokenId d' = Some id) ∨
     (∃ t, sessionTokens s !! id = Some t ∧ st_deviceKey t = Some k ∧
           st_uid t = st_uid t' ∧
           ∀ a d, account_at s (hex (st_uid t)) = Some a → devices a !! k = Some d →
                  hex <$> dev_sessionTokenId d = Some id →
                  ∃ a' d', account_at s' (hex (st_uid t)) = Some a' ∧
                           devices a' !! k = Some d' ∧
                           hex <$> dev_sessionTokenId d' = Some id)) →
  linked s'.
Proof.
  intros Hs Hstep id t' Ht' k Hk Hne.
  destruct (Hstep id t' k Ht' Hk Hne) as [Hnew | (t & Ht & Hkt & Hu & Hkeep)];
    [done|].
  destruct (Hs id t Ht k Hkt Hne) as (a & d & Ha & Hd & Hid).
  rewrite <- Hu. eauto.
Qed.

Lemma linked_kept (s s' : Store) :
  linked s → sessions_kept s s' → devices_kept s s' → linked s'.
Proof.
  intros Hs Hsess Hdev. apply (linked_transfer s s' Hs).
  intros id t' k Ht' Hk Hne. right.
  destruct (Hsess id t' k Ht' Hk) as (t & Ht & Hkt & Hu).
  exists t. split_and!; [done..|].
  intros a d Ha Hd Hid.
  destruct (Hdev _ _ Ha) as (a' & Ha' & Hall).
  destruct (Hall _ _ Hd) as (d' & Hd' & Hsame).
  exists a', d'. by rewrite Hsame.
Qed.

Lemma account_at_same (s s' : Store) (k : string) :
  accounts s' = accounts s → objects s' = objects s →
  account_at s' k = account_at s k.
Proof. intros Ha Ho. by rewrite !account_at_unfold, Ha, Ho. Qed.

Lemma sessions_kept_refl (s s' : Store) :
  sessionTokens s' = sessionTokens s → sessions_kept s s'.
Proof. intros Heq id t' k Ht' Hk. rewrite Heq in Ht'. eauto. Qed.

Lemma devices_kept_refl (s s' : Store) :
  accounts s' = accounts s → objects s' = objects s → devices_kept s s'.
Proof. intros Ha Ho u a Hu. rewrite (account_at_same s s') by done. eauto. Qed.

Lemma sessions_kept_trans (s1 s2 s3 : Store) :
  sessions_kept s1 s2 → sessions_kept s2 s3 → sessions_kept s1 s3.
Proof.
  intros H12 H23 id t3 k Ht3 Hk.
  destruct (H23 _ _ _ Ht3 Hk) as (t2 & Ht2 & Hk2 & Hu2).
  destruct (H12 _ _ _ Ht2 Hk2) as (t1 & Ht1 & Hk1 & Hu1).
  exists t1. split_and!; [done..|congruence].
Qed.

Lemma devices_kept_trans (s1 s2 s3 : Store) :
  devices_kept s1 s2 → devices_kept s2 s3 → devices_kept s1 s3.
Proof.
  intros H12 H23 u a1 Ha1.
  destruct (H12 _ _ Ha1) as (a2 & Ha2 & Hd12).
  destruct (H23 _ _ Ha2) as (a3 & Ha3 & Hd23).
  exists a3. split; [done|]. intros k d1 Hd1.
  destruct (Hd12 _ _ Hd1) as (d2 & Hd2 & He2).
  destruct (Hd23 _ _ Hd2) as (d3 & Hd3 & He3).
  exists d3. split; [done|congruence].
Qed.

(** Writing to one account object a version of it with the same devices, up
    to their mirrored session fields: every key under which the object is
    stored sees it. *)
Lemma devices_kept_write (s : Store) (r : Ref) (a a' : Account) :
  objects s !! r = Some a →
  (∀ k d, devices a !! k = Some d →
          ∃ d', devices a' !! k = Some d' ∧
                dev_sessionTokenId d' = dev_sessionTokenId d) →
  devices_kept s (write_object r a' s).
Proof.
  intros Ha Hsame u a0 Hu.
  destruct (account_at_write_cases s r a a' u Ha) as [[Hnew Hold] | [Hnew _]];
    rewrite Hnew.
  - exists a'. split; [done|]. by replace a0 with a by congruence.
  - eauto.
Qed.

Lemma linked_same (s s' : Store) :
  accounts s' = accounts s → objects s' = objects s →
  sessionTokens s' = sessionTokens s →
  linked s → linked s'.
Proof.
  intros Ha Ho Ht Hs.
  by apply (linked_kept s s' Hs); [apply sessions_kept_refl | apply devices_kept_refl].
Qed.

(** *** Operations that change an account but keep its devices *)

Lemma new_object_kept (data : Account) (s : Store) :
  sessions_kept s (new_object data s).2 ∧ devices_kept s (new_object data s).2.
Proof.
  split; [by apply sessions_kept_refl|].
  intros u a Hu. exists a. split; [|eauto].
  apply account_at_Some in Hu as (r & Hr & Ho).
  apply account_at_Some. exists r. split; [done|].
  simpl. by apply lookup_app_l_Some.
Qed.

Lemma passes_new_object_spec (uid : Buffer) (data : Ref) (s : Store) :
  passes_new_object (CreateAccount uid data) s = true ↔
  ∀ k, accounts s !! k ≠ Some data.
Proof.
  simpl. rewrite forallb_forall. split.
  - intros H k Hk.
    specialize (H (k, data)). simpl in H.
    rewrite Nat.eqb_refl in H. discriminate H.
    apply list_elem_of_In. by apply elem_of_map_to_list.
  - intros H [k r] Hin%list_elem_of_In%elem_of_map_to_list. simpl.
    apply negb_true_iff, Nat.eqb_neq. intros ->. by eapply H.
Qed.

(** Handed an object that is not in the store, [createAccount] leaves every
    stored account as it was, whether it resolves or rejects. *)
Lemma createAccount_kept (uid : Buffer) (data : Ref) (s : Store) :
  (∀ k, accounts s !! k ≠ Some data) →
  sessions_kept s (createAccount uid data s).2 ∧
  devices_kept s (createAccount uid data s).2.
Proof.
  intros Hnew. destruct (objects s !! data) as [payload|] eqn:Hdata.
  - destruct (createAccount_cases uid data s payload Hdata)
      as [(_ & Hfree & _ & _ & _ & Hobj & Hacc & _ & Hsess & _) | (_ & -> & _)].
    + split; [by apply sessions_kept_refl|].
      intros u a Hu. exists a. split; [|eauto].
      assert (account_at
                (write_object data (acct_set_lockedAt VNull (acct_set_devices ∅ payload)) s)
                u = Some a) as Hu0 by (by rewrite account_at_write_ne).
      assert (u ≠ hex uid) as Hne by (intros ->; congruence).
      rewrite account_at_unfold in Hu0 |- *.
      by rewrite Hacc, Hobj, lookup_insert_ne.
    + split; [by apply sessions_kept_refl|].
      intros u a Hu. exists a. rewrite account_at_write_ne by done. eauto.
  - unfold createAccount. rewrite Hdata. simpl.
    split; [by apply sessions_kept_refl | by apply devices_kept_refl].
Qed.

Lemma verifyEmail_kept (uid : Buffer) (s : Store) :
  sessions_kept s (verifyEmail uid s).2 ∧ devices_kept s (verifyEmail uid s).2.
Proof.
  unfold verifyEmail.
  destruct (getAccountByUid_cases uid s) as [(r & a & _ & Ha & _ & ->) | [_ ->]]; simpl.
  - split; [by apply sessions_kept_refl|].
    eapply devices_kept_write; [done | eauto].
  - split; [by apply sessions_kept_refl | by apply devices_kept_refl].
Qed.

Lemma updateLocale_kept (uid : Buffer) (l : value) (s : Store) :
  sessions_kept s (updateLocale uid l s).2 ∧ devices_kept s (updateLocale uid l s).2.
Proof.
  unfold updateLocale.
  destruct (getAccountByUid_cases uid s) as [(r & a & _ & Ha & _ & ->) | [_ ->]]; simpl.
  - split; [by apply sessions_kept_refl|].
    eapply devices_kept_write; [done | eauto].
  - split; [by apply sessions_kept_refl | by apply devices_kept_refl].
Qed.

Lemma assign_unlockCode_frame (key : string) (code : UnlockCode) (s : Store) :
  accounts (assign_unlockCode key code s) = accounts s ∧
  objects (assign_unlockCode key code s) = objects s ∧
  sessionTokens (assign_unlockCode key code s) = sessionTokens s.
Proof.
  unfold assign_unlockCode.
  destruct (accountUnlockCodes s !! key); [done|].
  by destruct (String.eqb key "__proto__").
Qed.

Lemma lockAccount_kept (utf8 : Buffer → string) (uid : Buffer) (l c : value) (s : Store) :
  sessions_kept s (lockAccount utf8 uid l c s).2 ∧
  devices_kept s (lockAccount utf8 uid l c s).2.
Proof.
  unfold lockAccount.
  destruct (getAccountByUid_cases uid s) as [(r & a & _ & Ha & _ & ->) | [_ ->]]; simpl.
  - destruct (assign_unlockCode_frame (utf8 uid) (mkUnlockCode uid c)
                (write_object r (acct_set_lockedAt l a) s)) as (Hacc & Hobj & Hsess).
    split; [by apply sessions_kept_refl|].
    eapply devices_kept_trans; [|by apply devices_kept_refl].
    eapply devices_kept_write; [done | eauto].
  - split; [by apply sessions_kept_refl | by apply devices_kept_refl].
Qed.

Lemma unlockAccount_kept (utf8 : Buffer → string) (uid : Buffer) (s : Store) :
  sessions_kept s (unlockAccount utf8 uid s).2 ∧
  devices_kept s (unlockAccount utf8 uid s).2.
Proof.
  unfold unlockAccount.
  destruct (getAccountByUid_cases uid s) as [(r & a & _ & Ha & _ & ->) | [_ ->]]; simpl.
  - split; [by apply sessions_kept_refl|].
    eapply devices_kept_trans; [|by apply devices_kept_refl].
    eapply devices_kept_write; [done | eauto].
  - split; [by apply sessions_kept_refl | by apply devices_kept_refl].
Qed.

Lemma refresh_device_sessionTokenId (s : Store) (d : Device) :
  dev_sessionTokenId (refresh_device s d) = dev_sessionTokenId d.
Proof. unfold refresh_device. by destruct (sessionTokens s !! _). Qed.

Lemma accountDevices_kept (uid : Buffer) (s : Store) :
  sessions_kept s (accountDevices uid s).2 ∧ devices_kept s (accountDevices uid s).2.
Proof.
  unfold accountDevices.
  destruct (getAccountByUid_cases uid s) as [(r & a & _ & Ha & _ & ->) | [_ ->]]; simpl.
  - split; [by apply sessions_kept_refl|].
    eapply devices_kept_write; [done|].
    intros k d Hd. exists (refresh_device s d). simpl.
    rewrite lookup_fmap, Hd. split; [done|]. apply refresh_device_sessionTokenId.
  - split; [by apply sessions_kept_refl | by apply devices_kept_refl].
Qed.

Lemma forgotPasswordVerified_kept (utf8 : Buffer → string) (id rid : Buffer)
  (t : AccountResetToken) (s : Store) :
  sessions_kept s (forgotPasswordVerified utf8 id rid t s).2 ∧
  devices_kept s (forgotPasswordVerified utf8 id rid t s).2.
Proof.
  unfold forgotPasswordVerified.
  destruct (deletePasswordForgotToken id s) as [r1 s1] eqn:H1.
  destruct (createAccountResetToken rid t s1) as [r2 s2] eqn:H2.
  pose proof (verifyEmail_kept (ar_uid t) s2) as [Hs3 Hd3].
  destruct (verifyEmail (ar_uid t) s2) as [r3 s3] eqn:H3.
  pose proof (unlockAccount_kept utf8 (ar_uid t) s3) as [Hs4 Hd4].
  destruct (unlockAccount utf8 (ar_uid t) s3) as [r4 s4] eqn:H4.
  simpl in *.
  assert (s2 = set_accountResetTokens (accountResetTokens s2)
                 (set_passwordForgotTokens (passwordForgotTokens s2) s)) as Hs2.
  { unfold deletePasswordForgotToken in H1. injection H1 as _ <-.
    unfold createAccountResetToken in H2. by injection H2 as _ <-. }
  assert (sessions_kept s s2 ∧ devices_kept s s2) as [Hs2a Hs2b].
  { rewrite Hs2. split; [by apply sessions_kept_refl | by apply devices_kept_refl]. }
  assert (sessions_kept s s4 ∧ devices_kept s s4) as Hall.
  { split.
    - eapply sessions_kept_trans; [|done]. by eapply sessions_kept_trans.
    - eapply devices_kept_trans; [|done]. by eapply devices_kept_trans. }
  by destruct r1, r2, r3, r4.
Qed.

(** *** Operations on session tokens *)

Lemma createSessionToken_kept (id : Buffer) (data : SessionTokenData) (s : Store) :
  sessions_kept s (createSessionToken id data s).2 ∧
  devices_kept s (createSessionToken id data s).2.
Proof.
  unfold createSessionToken.
  destruct (sessionTokens s !! hex id) eqn:Hid; simpl.
  - split; [by apply sessions_kept_refl | by apply devices_kept_refl].
  - split; [|by apply devices_kept_refl].
    intros k t' dk Ht' Hdk. simpl in Ht'.
    destruct (decide (k = hex id)) as [->|Hne].
    + rewrite lookup_insert_eq in Ht'. by injection Ht' as <-.
    + rewrite lookup_insert_ne in Ht' by done. eauto.
Qed.

Lemma deleteSessionToken_kept (id : Buffer) (s : Store) :
  sessions_kept s (deleteSessionToken id s).2 ∧
  devices_kept s (deleteSessionToken id s).2.
Proof.
  unfold deleteSessionToken.
  destruct (sessionTokens s !! hex id) eqn:Hid; simpl.
  - split; [|by apply devices_kept_refl].
    intros k t' dk Ht' Hdk. simpl in Ht'.
    apply lookup_delete_Some in Ht' as [_ Ht']. eauto.
  - split; [by apply sessions_kept_refl | by apply devices_kept_refl].
Qed.

Lemma updateSessionToken_kept (id : Buffer) (data : SessionFields) (s : Store) :
  sessions_kept s (updateSessionToken id data s).2 ∧
  devices_kept s (updateSessionToken id data s).2.
Proof.
  unfold updateSessionToken.
  destruct (sessionTokens s !! hex id) as [t|] eqn:Hid; simpl.
  - split; [|by apply devices_kept_refl].
    intros k t' dk Ht' Hdk. simpl in Ht'.
    destruct (decide (k = hex id)) as [->|Hne].
    + rewrite lookup_insert_eq in Ht'. injection Ht' as <-. eauto.
    + rewrite lookup_insert_ne in Ht' by done. eauto.
  - split; [by apply sessions_kept_refl | by apply devices_kept_refl].
Qed.

(** *** Operations that remove devices together with their session tokens *)

(** [resetAccount] empties the devices of the object stored under the uid.
    The tokens it keeps belong to other uids, whose accounts are other
    objects as long as no object is stored twice. *)
Lemma resetAccount_linked (uid : Buffer) (data : ResetData) (s : Store) :
  linked s → unshared s → linked (resetAccount uid data s).2.
Proof.
  intros Hs Hun. unfold resetAccount.
  destruct (getAccountByUid_cases uid s) as [(r & a & Hr & Ha & _ & ->) | [_ ->]];
    simpl; [|done].
  apply (linked_transfer s _ Hs). simpl.
  intros id t' k [Ht' Hown]%lookup_deleteByUid Hk Hne. right.
  unfold uid_of, SessionToken_uid in Hown.
  exists t'. split_and!; [done..|].
  intros a0 d0 Ha0 Hd0 Hid. exists a0, d0. split; [|done].
  rewrite <- Ha0.
  match goal with
  | |- account_at (write_object r ?a' ?s0) ?k = _ =>
      rewrite (account_at_write_ne s0 r a' k); [by apply account_at_same|]
  end.
  simpl. intros Hk'. apply Hown. by apply (Hun _ _ r).
Qed.

Lemma deleteAccount_linked (uid : Buffer) (s : Store) :
  linked s → linked (deleteAccount uid s).2.
Proof.
  intros Hs. unfold deleteAccount.
  destruct (getAccountByUid_cases uid s) as [(r & a & Hr & Ha & _ & ->) | [_ ->]];
    simpl; [|done].
  apply (linked_transfer s _ Hs). simpl.
  intros id t' k [Ht' Hown]%lookup_deleteByUid Hk Hne. right.
  unfold uid_of, SessionToken_uid in Hown.
  exists t'. split_and!; [done..|].
  intros a0 d0 Ha0 Hd0 Hid. exists a0, d0. split; [|done].
  rewrite <- Ha0. rewrite !account_at_unfold. simpl.
  by rewrite lookup_delete_ne by done.
Qed.

Lemma deleteDevice_linked (uid deviceId : Buffer) (s : Store) :
  linked s → linked (deleteDevice uid deviceId s).2.
Proof.
  intros Hs. unfold deleteDevice.
  destruct (getAccountByUid_cases uid s) as [(r & a & Hr & Ha & _ & ->) | [_ ->]];
    simpl; [|done].
  destruct (devices a !! hex deviceId) as [device|] eqn:Hdev; simpl; [|done].
  apply (linked_transfer s _ Hs). simpl.
  intros id t' k [Hne Ht']%lookup_delete_Some Hk Hk'. right.
  exists t'. split_and!; [done..|].
  intros a0 d0 Ha0 Hd0 Hid.
  set (s0 := set_sessionTokens
               (delete (hex_or_empty (dev_sessionTokenId device)) (sessionTokens s)) s).
  destruct (account_at_write_cases s0 r a
              (acct_set_devices (delete (hex deviceId) (devices a)) a)
              (hex (st_uid t')) Ha) as [[Hnew Hold] | [Hnew _]]; rewrite Hnew.
  - assert (account_at s0 (hex (st_uid t')) = account_at s (hex (st_uid t'))) as Hs0
      by (by apply account_at_same).
    replace a0 with a in * by congruence.
    eexists _, d0. split; [done|]. split; [|done]. simpl.
    rewrite lookup_delete_ne; [done|].
    intros <-. replace d0 with device in * by congruence.
    destruct (dev_sessionTokenId device); simpl in *; congruence.
  - exists a0, d0. split; [|done]. rewrite <- Ha0. by apply account_at_same.
Qed.

(** *** Binding a device to a session token *)

Lemma updateDeviceRecord_cases (device : Device) (info : DeviceInfo) (dk : string)
  (s : Store) :
  let sessionKey := hex_or_empty (di_sessionTokenId info) in
  updateDeviceRecord device info dk s = (Reject Duplicate, s) ∨
  (∃ t, str_truthy sessionKey = true ∧ sessionTokens s !! sessionKey = Some t ∧
        updateDeviceRecord device info dk s
        = (Resolve (dev_set_fields (st_fields t) (merge_device device info)),
           set_sessionTokens
             (<[sessionKey := st_set_deviceKey (Some dk) t]> (sessionTokens s)) s)) ∨
  updateDeviceRecord device info dk s = (Resolve (merge_device device info), s).
Proof.
  intros sessionKey. unfold updateDeviceRecord. fold sessionKey.
  destruct (str_truthy sessionKey) eqn:Htruthy; [|by right; right].
  destruct (sessionTokens s !! sessionKey) as [t|] eqn:Ht; [|by right; right].
  destruct (bound_elsewhere (Some t) dk); [by left|].
  right; left. by exists t.
Qed.

Lemma hex_or_empty_truthy (id : option Buffer) :
  str_truthy (hex_or_empty id) = true → hex <$> id = Some (hex_or_empty id).
Proof. by destruct id. Qed.

Lemma merge_sessionTokenId_None (id : option Buffer) :
  merge_sessionTokenId None id = id.
Proof. by destruct id. Qed.

Lemma dev_set_fields_sessionTokenId (f : SessionFields) (d : Device) :
  dev_sessionTokenId (dev_set_fields f d) = dev_sessionTokenId d.
Proof. reflexivity. Qed.

Lemma owned_by_spec (s : Store) (uid : Buffer) (key : string) (t : SessionToken) :
  owned_by s uid key = true → str_truthy key = true →
  sessionTokens s !! key = Some t →
  hex (st_uid t) = hex uid.
Proof.
  unfold owned_by. intros H Htruthy Ht. rewrite Htruthy, Ht in H.
  by apply String.eqb_eq.
Qed.

(** Storing device [d'] under [dk] in the account object at [r], after a
    store [s1] that kept the session links of [s], keeps the store linked,
    provided every token of [s1] that named the device stored under [dk]
    before is the one [d'] names. *)
Lemma store_device_linked (s s1 : Store) (r : Ref) (dk : string) (a : Account)
  (d' : Device) :
  linked s →
  objects s !! r = Some a →
  accounts s1 = accounts s →
  objects s1 = objects s →
  sessions_kept s s1 →
  (∀ id t k d, sessionTokens s1 !! id = Some t → st_deviceKey t = Some k →
     devices a !! dk = Some d → hex <$> dev_sessionTokenId d = Some id →
     hex <$> dev_sessionTokenId d' = Some id) →
  linked (store_device r dk d' s1).
Proof.
  intros Hs Ha Hacc Hobj Hkept Hsame.
  unfold store_device. rewrite Hobj, Ha.
  apply (linked_transfer s _ Hs). simpl.
  intros id t' k Ht' Hk Hne. right.
  destruct (Hkept _ _ _ Ht' Hk) as (t & Ht & Hkt & Hu).
  exists t. split_and!; [done..|].
  intros a0 d0 Ha0 Hd0 Hid.
  assert (objects s1 !! r = Some a) as Ha1 by (by rewrite Hobj).
  destruct (account_at_write_cases s1 r a
              (acct_set_devices (<[dk:=d']> (devices a)) a)
              (hex (st_uid t)) Ha1) as [[Hnew Hold] | [Hnew _]]; rewrite Hnew.
  - rewrite (account_at_same s s1) in Hold by done.
    replace a0 with a in * by congruence.
    destruct (decide (k = dk)) as [->|Hk'].
    + eexists _, d'. split; [done|]. simpl.
      rewrite lookup_insert_eq. split; [done|]. eauto.
    + eexists _, d0. split; [done|]. simpl. by rewrite lookup_insert_ne by done.
  - exists a0, d0. split; [|done]. rewrite <- Ha0. by apply account_at_same.
Qed.

(** The same when the token under [key], owned by the account, is bound to
    the device in the same step. *)
Lemma bind_device_linked (s s1 : Store) (uid : Buffer) (r : Ref) (dk key : string)
  (a : Account) (d' : Device) (t : SessionToken) :
  linked s →
  accounts s !! hex uid = Some r →
  objects s !! r = Some a →
  accounts s1 = accounts s →
  objects s1 = objects s →
  sessions_kept s s1 →
  sessionTokens s1 !! key = Some t →
  hex (st_uid t) = hex uid →
  hex <$> dev_sessionTokenId d' = Some key →
  (∀ id t k d, sessionTokens s1 !! id = Some t → st_deviceKey t = Some k →
     devices a !! dk = Some d → hex <$> dev_sessionTokenId d = Some id →
     hex <$> dev_sessionTokenId d' = Some id) →
  linked (store_device r dk d'
            (set_sessionTokens
               (<[key := st_set_deviceKey (Some dk) t]> (sessionTokens s1)) s1)).
Proof.
  intros Hs Hr Ha Hacc Hobj Hkept Ht Hown Hd' Hsame.
  unfold store_device. simpl. rewrite Hobj, Ha.
  set (s2 := set_sessionTokens
               (<[key := st_set_deviceKey (Some dk) t]> (sessionTokens s1)) s1).
  assert (objects s2 !! r = Some a) as Ha2 by (simpl; by rewrite Hobj).
  assert (∀ u, account_at s2 u = account_at s u) as Hsame2
    by (intros u; by apply account_at_same).
  apply (linked_transfer s _ Hs). simpl.
  intros id t' k Ht' Hk Hne.
  destruct (decide (id = key)) as [->|Hid].
  - left. rewrite lookup_insert_eq in Ht'. injection Ht' as <-. simpl in *.
    injection Hk as <-. rewrite Hown.
    eexists _, d'. split.
    + eapply account_at_write_eq; [done|]. simpl. by rewrite Hacc.
    + simpl. by rewrite lookup_insert_eq.
  - right. rewrite lookup_insert_ne in Ht' by done.
    destruct (Hkept _ _ _ Ht' Hk) as (t0 & Ht0 & Hkt & Hu).
    exists t0. split_and!; [done..|].
    intros a0 d0 Ha0 Hd0 Hlink.
    destruct (account_at_write_cases s2 r a
                (acct_set_devices (<[dk:=d']> (devices a)) a)
                (hex (st_uid t0)) Ha2) as [[Hnew Hold] | [Hnew _]]; rewrite Hnew.
    + rewrite Hsame2 in Hold.
      replace a0 with a in * by congruence.
      destruct (decide (k = dk)) as [->|Hk'].
      * eexists _, d'. split; [done|]. simpl.
        rewrite lookup_insert_eq. split; [done|]. eauto.
      * eexists _, d0. split; [done|]. simpl. by rewrite lookup_insert_ne by done.
    + exists a0, d0. split; [|done]. by rewrite Hsame2.
Qed.

Lemma createDevice_linked (uid deviceId : Buffer) (info : DeviceInfo) (s : Store) :
  linked s → binds_own_session (CreateDevice uid deviceId info) s = true →
  linked (createDevice uid deviceId info s).2.
Proof.
  intros Hs Hown. simpl in Hown.
  unfold createDevice.
  destruct (getAccountByUid_cases uid s) as [(r & a & Hr & Ha & _ & ->) | [_ ->]];
    simpl; [|done].
  destruct (devices a !! hex deviceId) as [device|] eqn:Hdev; simpl; [done|].
  destruct (updateDeviceRecord_cases (new_device uid deviceId) info (hex deviceId) s)
    as [-> | [(t & Htruthy & Ht & ->) | ->]]; simpl; [done | |].
  - apply (bind_device_linked s s uid r _ _ a); try done.
    + by apply sessions_kept_refl.
    + by eapply owned_by_spec.
    + simpl. rewrite merge_sessionTokenId_None. by apply hex_or_empty_truthy.
    + intros ? ? ? ? _ _ ?. congruence.
  - apply (store_device_linked s s r _ a); try done.
    + by apply sessions_kept_refl.
    + intros ? ? ? ? _ _ ?. congruence.
Qed.

Lemma unlink_session_lookup (key id : string) (s : Store) (t1 : SessionToken) :
  sessionTokens (unlink_session key s) !! id = Some t1 →
  ∃ t, sessionTokens s !! id = Some t ∧ st_uid t = st_uid t1 ∧
       (st_deviceKey t1 = None ∧ id = key ∨ t1 = t ∧ id ≠ key).
Proof.
  unfold unlink_session.
  destruct (sessionTokens s !! key) as [old|] eqn:Hold; simpl.
  - destruct (decide (id = key)) as [->|Hne].
    + rewrite lookup_insert_eq. intros [= <-]. exists old. eauto.
    + rewrite lookup_insert_ne by done. intros Ht1. exists t1. eauto.
  - intros Ht1. exists t1. split_and!; [done..|].
    right. split; [done|]. congruence.
Qed.

Lemma release_old_session_spec (d : Device) (info : DeviceInfo) (s : Store) :
  let eff := merge_sessionTokenId (dev_sessionTokenId d) (di_sessionTokenId info) in
  let r := release_old_session d info s in
  di_sessionTokenId r.1 = eff ∧
  dev_sessionTokenId (merge_device d r.1) = eff ∧
  accounts r.2 = accounts s ∧
  objects r.2 = objects s ∧
  sessions_kept s r.2 ∧
  (∀ key t1, sessionTokens r.2 !! key = Some t1 →
     ∃ t, sessionTokens s !! key = Some t ∧ st_uid t = st_uid t1) ∧
  (∀ id t k, sessionTokens r.2 !! id = Some t → st_deviceKey t = Some k →
     hex <$> dev_sessionTokenId d = Some id → hex <$> eff = Some id).
Proof.
  unfold release_old_session.
  destruct (dev_sessionTokenId d) as [old|] eqn:Hold;
    destruct (di_sessionTokenId info) as [new|] eqn:Hnew; simpl.
  - destruct (String.eqb (hex old) (hex new)) eqn:Heq; simpl.
    + apply String.eqb_eq in Heq. rewrite Hold, Hnew. simpl.
      split_and!; [done.. | by apply sessions_kept_refl | eauto |].
      intros id t k _ _ [= <-]. by rewrite Heq.
    + rewrite Hold, Hnew. simpl.
      assert (accounts (unlink_session (hex old) s) = accounts s ∧
              objects (unlink_session (hex old) s) = objects s) as [Hacc Hobj].
      { unfold unlink_session. by destruct (sessionTokens s !! hex old). }
      split_and!; [done..| | |].
      * intros id t1 k Ht1 Hk.
        apply unlink_session_lookup in Ht1 as (t & Ht & Hu & [[Hnone _]|[-> _]]);
          [congruence|eauto].
      * intros key t1 Ht1.
        apply unlink_session_lookup in Ht1 as (t & Ht & Hu & _). eauto.
      * intros id t k Ht Hk [= <-].
        apply unlink_session_lookup in Ht as (t0 & _ & _ & [[Hnone _]|[_ Hne]]);
          congruence.
  - rewrite ?Hold, ?Hnew. simpl.
    split_and!; [done.. | by apply sessions_kept_refl | eauto | done].
  - rewrite ?Hold, ?Hnew. simpl.
    split_and!; [done.. | by apply sessions_kept_refl | eauto | done].
  - rewrite ?Hold, ?Hnew. simpl.
    split_and!; [done.. | by apply sessions_kept_refl | eauto | done].
Qed.

Lemma updateDevice_linked (uid deviceId : Buffer) (info : DeviceInfo) (s : Store) :
  linked s → binds_own_session (UpdateDevice uid deviceId info) s = true →
  linked (updateDevice uid deviceId info s).2.
Proof.
  intros Hs Hown. simpl in Hown.
  unfold updateDevice.
  destruct (getAccountByUid_cases uid s) as [(r & a & Hr & Ha & Hat & ->) | [_ ->]];
    simpl; [|done].
  rewrite Hat in Hown.
  destruct (devices a !! hex deviceId) as [d|] eqn:Hdev; simpl; [|done].
  pose proof (release_old_session_spec d info s) as Hspec. cbv zeta in Hspec.
  destruct (release_old_session d info s) as [info' s1]. cbn [fst snd] in Hspec.
  destruct Hspec as (Heff & Hmerged & Hacc & Hobj & Hkept & Huid & Hnamed).
  assert (∀ id t k d0, sessionTokens s1 !! id = Some t → st_deviceKey t = Some k →
            devices a !! hex deviceId = Some d0 →
            hex <$> dev_sessionTokenId d0 = Some id →
            hex <$> dev_sessionTokenId (merge_device d info') = Some id) as Hsame.
  { intros id t k d0 Ht Hk Hd0 Hid. rewrite Hmerged.
    replace d0 with d in * by congruence. eauto. }
  destruct (updateDeviceRecord_cases d info' (hex deviceId) s1)
    as [-> | [(t & Htruthy & Ht & ->) | ->]]; simpl.
  - apply (linked_kept s s1 Hs Hkept). by apply devices_kept_refl.
  - rewrite Heff in *.
    apply (bind_device_linked s s1 uid r _ _ a); try done.
    + destruct (Huid _ _ Ht) as (t0 & Ht0 & <-). by eapply owned_by_spec.
    + rewrite dev_set_fields_sessionTokenId, Hmerged. by apply hex_or_empty_truthy.
  - by apply (store_device_linked s s1 r _ a).
Qed.

(** *** Every operation *)

Lemma updateDeviceRecord_frame (device : Device) (info : DeviceInfo) (dk : string)
  (s : Store) :
  accounts (updateDeviceRecord device info dk s).2 = accounts s ∧
  objects (updateDeviceRecord device info dk s).2 = objects s.
Proof.
  by destruct (updateDeviceRecord_cases device info dk s)
    as [-> | [(t & _ & _ & ->) | ->]].
Qed.

Lemma store_device_accounts (r : Ref) (dk : string) (d : Device) (s : Store) :
  accounts (store_device r dk d s) = accounts s.
Proof. unfold store_device. by destruct (objects s !! r). Qed.

Lemma store_device_length (r : Ref) (dk : string) (d : Device) (s : Store) :
  length (objects (store_device r dk d s)) = length (objects s).
Proof.
  unfold store_device. destruct (objects s !! r); [|done].
  simpl. by rewrite length_insert.
Qed.

Lemma forgotPasswordVerified_frame (utf8 : Buffer → string) (id rid : Buffer)
  (t : AccountResetToken) (s : Store) :
  accounts (forgotPasswordVerified utf8 id rid t s).2 = accounts s ∧
  sessionTokens (forgotPasswordVerified utf8 id rid t s).2 = sessionTokens s.
Proof.
  unfold forgotPasswordVerified, deletePasswordForgotToken, createAccountResetToken,
    verifyEmail, unlockAccount.
  rewrite !getAccountByUid_buffer. simpl.
  repeat (case_match; simplify_eq; simpl); done.
Qed.

(** The accounts table changes in [createAccount] and [deleteAccount]
    only. *)
Lemma exec_accounts (utf8 : Buffer → string) (op : Op) (s : Store) :
  accounts (exec utf8 op s) = accounts s ∨
  (∃ uid data, op = CreateAccount uid data ∧
               accounts (exec utf8 op s) = <[hex uid := data]> (accounts s)) ∨
  (∃ uid, op = DeleteAccount uid ∧
          accounts (exec utf8 op s) = delete (hex uid) (accounts s)).
Proof.
  destruct op; simpl; try (by left);
    try (left;
         match goal with
         | |- context [?f _ _ _ _ s] => unfold f
         | |- context [?f _ _ _ s] => unfold f
         | |- context [?f _ _ s] => unfold f
         | |- context [?f _ s] => unfold f
         end;
         rewrite ?getAccountByUid_buffer;
         repeat case_match; simplify_eq; simpl;
         rewrite ?store_device_accounts;
         first [done | apply assign_unlockCode_frame]).
  - destruct (objects s !! data) as [payload|] eqn:Hdata.
    + destruct (createAccount_cases uid data s payload Hdata)
        as [(_ & _ & _ & _ & _ & _ & Hacc & _) | (_ & Hs & _)].
      * right; left. eauto.
      * left. by rewrite Hs.
    + left. unfold createAccount. by rewrite Hdata.
  - left. unfold createDevice.
    destruct (getAccountByUid _ s) as [[r a]|]; [|done].
    destruct (devices a !! hex deviceId); [done|].
    pose proof (updateDeviceRecord_frame (new_device uid deviceId) deviceInfo
                  (hex deviceId) s) as [Hacc _].
    destruct (updateDeviceRecord _ _ _ s) as [[d|e] s']; simpl in *; [|done].
    by rewrite store_device_accounts.
  - left. unfold updateDevice.
    destruct (getAccountByUid _ s) as [[r a]|]; [|done].
    destruct (devices a !! hex deviceId) as [d|]; [|done].
    pose proof (release_old_session_spec d deviceInfo s) as Hspec. cbv zeta in Hspec.
    destruct (release_old_session d deviceInfo s) as [info' s1]. cbn [fst snd] in Hspec.
    destruct Hspec as (_ & _ & Hacc1 & _).
    pose proof (updateDeviceRecord_frame d info' (hex deviceId) s1) as [Hacc _].
    destruct (updateDeviceRecord _ _ _ s1) as [[d'|e] s']; simpl in *; [|congruence].
    rewrite store_device_accounts. congruence.
  - left. apply forgotPasswordVerified_frame.
  - destruct (getAccountByUid_cases uid s) as [(r & a & Hr & Ha & Hat & Hget) | [_ Hget]].
    + right; right. exists uid. split; [done|].
      by destruct (deleteAccount_cascade s uid a Hat) as (_ & -> & _).
    + left. unfold deleteAccount. by rewrite Hget.
  - left. unfold lockAccount.
    destruct (getAccountByUid _ s) as [[r a]|]; [|done]. simpl.
    by destruct (assign_unlockCode_frame (utf8 uid) (mkUnlockCode uid unlockCode0)
                   (write_object r (acct_set_lockedAt lockedAt0 a) s)) as [-> _].
Qed.

Lemma exec_unshared (utf8 : Buffer → string) (op : Op) (s : Store) :
  unshared s → passes_new_object op s = true → unshared (exec utf8 op s).
Proof.
  intros Hun Hnew.
  destruct (exec_accounts utf8 op s)
    as [Heq | [(uid & data & -> & Heq) | (uid & -> & Heq)]];
    unfold unshared; rewrite Heq; [done | |].
  - pose proof (proj1 (passes_new_object_spec _ _ _) Hnew) as Hfree.
    intros k1 k2 r [[? ?]|[Hk1 H1]]%lookup_insert_Some
      [[? ?]|[Hk2 H2]]%lookup_insert_Some; simplify_eq; try done.
    + by destruct (Hfree k2).
    + by destruct (Hfree k1).
    + eauto.
  - intros k1 k2 r [_ H1]%lookup_delete_Some [_ H2]%lookup_delete_Some. eauto.
Qed.

(** No operation removes an account object. *)
Lemma exec_objects_length (utf8 : Buffer → string) (op : Op) (s : Store) :
  (length (objects s) ≤ length (objects (exec utf8 op s)))%nat.
Proof.
  destruct op; simpl; try lia;
    try (match goal with
         | |- context [?f _ _ _ _ s] => unfold f
         | |- context [?f _ _ _ s] => unfold f
         | |- context [?f _ _ s] => unfold f
         | |- context [?f _ s] => unfold f
         end;
         rewrite ?getAccountByUid_buffer;
         repeat (case_match; simplify_eq; simpl);
         rewrite ?length_insert; lia).
  - rewrite length_app. simpl. lia.
  - unfold createDevice.
    destruct (getAccountByUid _ s) as [[r a]|]; [|done].
    destruct (devices a !! hex deviceId); [done|].
    pose proof (updateDeviceRecord_frame (new_device uid deviceId) deviceInfo
                  (hex deviceId) s) as [_ Hobj].
    destruct (updateDeviceRecord _ _ _ s) as [[d|e] s']; simpl in *;
      rewrite ?store_device_length, ?Hobj; lia.
  - unfold updateDevice.
    destruct (getAccountByUid _ s) as [[r a]|]; [|done].
    destruct (devices a !! hex deviceId) as [d|]; [|done].
    pose proof (release_old_session_spec d deviceInfo s) as Hspec. cbv zeta in Hspec.
    destruct (release_old_session d deviceInfo s) as [info' s1]. cbn [fst snd] in Hspec.
    destruct Hspec as (_ & _ & _ & Hobj1 & _).
    pose proof (updateDeviceRecord_frame d info' (hex deviceId) s1) as [_ Hobj].
    destruct (updateDeviceRecord _ _ _ s1) as [[d'|e] s']; simpl in *;
      rewrite ?store_device_length, ?Hobj, ?Hobj1; lia.
  - unfold forgotPasswordVerified, deletePasswordForgotToken, createAccountResetToken,
      verifyEmail, unlockAccount.
    rewrite !getAccountByUid_buffer. simpl.
    repeat (case_match; simplify_eq; simpl); rewrite ?length_insert; lia.
  - unfold lockAccount.
    destruct (getAccountByUid _ s) as [[r a]|]; [|done]. simpl.
    destruct (assign_unlockCode_frame (utf8 uid) (mkUnlockCode uid unlockCode0)
                (write_object r (acct_set_lockedAt lockedAt0 a) s)) as (_ & -> & _).
    simpl. by rewrite length_insert.
Qed.

(** In every store the module can be in, an address held by the accounts
    table names an object: [getAccountByUid] finds the object of every key
    of the table. *)
Lemma reachable_addresses (utf8 : Buffer → string) (s : Store) :
  reachable utf8 s →
  ∀ k r, accounts s !! k = Some r → is_Some (objects s !! r).
Proof.
  induction 1 as [|op s _ IH]; intros k r Hk.
  - simpl in Hk. by rewrite lookup_empty in Hk.
  - apply lookup_lt_is_Some.
    pose proof (exec_objects_length utf8 op s) as Hlen.
    destruct (exec_accounts utf8 op s)
      as [Heq | [(uid & data & -> & Heq) | (uid & -> & Heq)]];
      rewrite Heq in Hk.
    + apply IH, lookup_lt_is_Some in Hk. lia.
    + apply lookup_insert_Some in Hk as [[_ <-]|[_ Hk]].
      * simpl in *. unfold createAccount in Heq, Hlen |- *.
        destruct (objects s !! data) as [payload|] eqn:Hdata.
        -- apply lookup_lt_Some in Hdata. lia.
        -- simpl in Heq. exfalso.
           assert (accounts s !! hex uid = Some data) as Hold
             by (by rewrite Heq, lookup_insert_eq).
           apply IH, lookup_lt_is_Some in Hold.
           apply lookup_ge_None in Hdata. lia.
      * apply IH, lookup_lt_is_Some in Hk. lia.
    + apply lookup_delete_Some in Hk as [_ Hk].
      apply IH, lookup_lt_is_Some in Hk. lia.
Qed.

Lemma exec_linked (utf8 : Buffer → string) (op : Op) (s : Store) :
  linked s → unshared s → well_used op s = true → linked (exec utf8 op s).
Proof.
  intros Hs Hun [Hown Hnew]%andb_prop.
  destruct op; simpl;
    try (apply (linked_same s); [| | |done];
         match goal with
         | |- context [?f _ _ s] => unfold f
         | |- context [?f _ s] => unfold f
         end;
         repeat case_match; done).
  - by eapply linked_kept; [|apply new_object_kept..].
  - pose proof (proj1 (passes_new_object_spec _ _ _) Hnew) as Hfree.
    by eapply linked_kept; [|apply createAccount_kept..].
  - by eapply linked_kept; [|apply createSessionToken_kept..].
  - by apply createDevice_linked.
  - by apply updateDevice_linked.
  - by eapply linked_kept; [|apply deleteSessionToken_kept..].
  - by apply deleteDevice_linked.
  - by eapply linked_kept; [|apply accountDevices_kept..].
  - by eapply linked_kept; [|apply verifyEmail_kept..].
  - by eapply linked_kept; [|apply forgotPasswordVerified_kept..].
  - by apply resetAccount_linked.
  - by apply deleteAccount_linked.
  - by eapply linked_kept; [|apply updateLocale_kept..].
  - by eapply linked_kept; [|apply lockAccount_kept..].
  - by eapply linked_kept; [|apply unlockAccount_kept..].
  - by eapply linked_kept; [|apply updateSessionToken_kept..].
Qed.

Lemma reachable_run (utf8 : Buffer → string) (ops : list Op) (s : Store) :
  reachable utf8 s → reachable utf8 (run utf8 ops s).
Proof.
  revert s. induction ops as [|op ops IH]; intros s Hs; [done|].
  simpl. apply IH. by constructor.
Qed.

Lemma reachable_own_run (utf8 : Buffer → string) (ops : list Op) (s : Store) :
  all_well_used utf8 ops s = true →
  reachable_own utf8 s → reachable_own utf8 (run utf8 ops s).
Proof.
  revert s. induction ops as [|op ops IH]; intros s Hops Hs; [done|].
  simpl in *. apply andb_prop in Hops as [Hop Hops].
  apply IH; [done|]. by constructor.
Qed.

Lemma reachable_own_linked (utf8 : Buffer → string) (s : Store) :
  reachable_own utf8 s → linked s ∧ unshared s.
Proof.
  induction 1 as [|op s _ [IH1 IH2] Hop].
  - split.
    + intros id t Ht. simpl in Ht. by rewrite lookup_empty in Ht.
    + intros k1 k2 r Hk1. simpl in Hk1. by rewrite lookup_empty in Hk1.
  - split; [by apply exec_linked|].
    apply exec_unshared; [done|]. by apply andb_prop in Hop as [_ ?].
Qed.

Lemma updateDeviceRecord_Reject (device : Device) (info : DeviceInfo) (dk : string)
  (s : Store) (e : Error) :
  (updateDeviceRecord device info dk s).1 = Reject e →
  e = Duplicate ∧ (updateDeviceRecord device info dk s).2 = s.
Proof.
  destruct (updateDeviceRecord_cases device info dk s)
    as [-> | [(t & _ & _ & ->) | ->]]; simpl; [|done..].
  by intros [= <-].
Qed.

Lemma createDevice_Reject (uid deviceId : Buffer) (info : DeviceInfo) (s : Store)
  (e : Error) :
  (createDevice uid deviceId info s).1 = Reject e →
  (createDevice uid deviceId info s).2 = s.
Proof.
  unfold createDevice.
  destruct (getAccountByUid _ s) as [[r a]|]; simpl; [|done].
  destruct (devices a !! hex deviceId); simpl; [done|].
  destruct (updateDeviceRecord_cases (new_device uid deviceId) info (hex deviceId) s)
    as [-> | [(t & _ & _ & ->) | ->]]; simpl; done.
Qed.

Lemma updateDeviceRecord_binds (device : Device) (info : DeviceInfo) (dk : string)
  (s : Store) (id : Buffer) (t : SessionToken) (d' : Device) :
  di_sessionTokenId info = Some id → id ≠ [] →
  sessionTokens s !! hex id = Some t →
  (updateDeviceRecord device info dk s).1 = Resolve d' →
  dev_sessionTokenId d' = Some id ∧
  (updateDeviceRecord device info dk s).2
  = set_sessionTokens (<[hex id := st_set_deviceKey (Some dk) t]> (sessionTokens s)) s.
Proof.
  intros Hid Hne Ht. unfold updateDeviceRecord. rewrite Hid. simpl.
  rewrite str_truthy_hex, Ht by done.
  destruct (bound_elsewhere (Some t) dk); simpl; [done|].
  intros [= <-]. simpl. by rewrite Hid.
Qed.

(** Both sides of the link after the device has been stored. *)
Lemma store_device_bound (s : Store) (uid deviceId id : Buffer) (r : Ref) (a : Account)
  (d' : Device) (t : SessionToken) :
  accounts s !! hex uid = Some r → objects s !! r = Some a →
  dev_sessionTokenId d' = Some id →
  bound (store_device r (hex deviceId) d'
           (set_sessionTokens
              (<[hex id := st_set_deviceKey (Some (hex deviceId)) t]> (sessionTokens s)) s))
    uid deviceId id.
Proof.
  intros Hr Ha Hd'. unfold store_device, bound. simpl. rewrite Ha.
  eexists _, d', _. split_and!.
  - by eapply account_at_write_eq.
  - simpl. apply lookup_insert_eq.
  - done.
  - simpl. apply lookup_insert_eq.
  - done.
Qed.

Lemma createDevice_binds (uid deviceId : Buffer) (info : DeviceInfo) (s : Store)
  (id : Buffer) (t : SessionToken) :
  di_sessionTokenId info = Some id → id ≠ [] →
  sessionTokens s !! hex id = Some t →
  (createDevice uid deviceId info s).1 = Resolve () →
  bound (createDevice uid deviceId info s).2 uid deviceId id.
Proof.
  intros Hid Hne Ht. unfold createDevice.
  destruct (getAccountByUid_cases uid s) as [(r & a & Hr & Ha & _ & ->) | [_ ->]];
    simpl; [|done].
  destruct (devices a !! hex deviceId); simpl; [done|].
  pose proof (updateDeviceRecord_binds (new_device uid deviceId) info (hex deviceId)
                s id t) as Hrec.
  destruct (updateDeviceRecord (new_device uid deviceId) info (hex deviceId) s)
    as [[d'|e] s']; simpl in *; [|done].
  intros _. destruct (Hrec d' Hid Hne Ht eq_refl) as [Hd' ->].
  by apply store_device_bound with a.
Qed.

Lemma updateDevice_binds (uid deviceId : Buffer) (info : DeviceInfo) (s : Store)
  (id : Buffer) (t : SessionToken) :
  di_sessionTokenId info = Some id → id ≠ [] →
  sessionTokens s !! hex id = Some t →
  (updateDevice uid deviceId info s).1 = Resolve () →
  bound (updateDevice uid deviceId info s).2 uid deviceId id.
Proof.
  intros Hid Hne Ht. unfold updateDevice.
  destruct (getAccountByUid_cases uid s) as [(r & a & Hr & Ha & _ & ->) | [_ ->]];
    simpl; [|done].
  destruct (devices a !! hex deviceId) as [d|]; simpl; [|done].
  assert (∃ s1 t1, release_old_session d info s = (info, s1) ∧
                   accounts s1 = accounts s ∧ objects s1 = objects s ∧
                   sessionTokens s1 !! hex id = Some t1)
    as (s1 & t1 & -> & Hacc & Hobj & Ht1).
  { unfold release_old_session. rewrite Hid.
    destruct (dev_sessionTokenId d) as [old|]; [|by eauto 10].
    destruct (String.eqb (hex old) (hex id)) eqn:Heq; simpl; [by eauto 10|].
    apply String.eqb_neq in Heq.
    eexists _, t. split; [done|]. unfold unlink_session.
    destruct (sessionTokens s !! hex old); simpl; [|done].
    by rewrite lookup_insert_ne. }
  pose proof (updateDeviceRecord_binds d info (hex deviceId) s1 id t1) as Hrec.
  destruct (updateDeviceRecord d info (hex deviceId) s1) as [[d'|e] s']; simpl in *;
    [|done].
  intros _. destruct (Hrec d' Hid Hne Ht1 eq_refl) as [Hd' ->].
  apply store_device_bound with a; [by rewrite Hacc | by rewrite Hobj | done].
Qed.

Lemma link_okb_spec (s : Store) (id : string) (t : SessionToken) :
  link_okb s id t = true ↔ link_ok s id t.
Proof.
  unfold link_okb, link_ok.
  destruct (st_deviceKey t) as [k|]; [|by split].
  destruct (str_truthy k) eqn:Hk.
  - assert (k ≠ "") as Hne by (by intros ->).
    split.
    + intros H k' [= <-] _.
      destruct (account_at s (hex (st_uid t))) as [a|]; [|done].
      destruct (devices a !! k) as [d|] eqn:Hd; [|done].
      destruct (dev_sessionTokenId d) as [b|] eqn:Hb; [|done].
      apply String.eqb_eq in H. exists a, d. rewrite Hb. simpl. by rewrite H.
    + intros H. destruct (H k eq_refl Hne) as (a & d & -> & -> & Hid).
      destruct (dev_sessionTokenId d) as [b|]; [|done].
      apply String.eqb_eq. by injection Hid.
  - split; [|done]. intros _ k' [= <-] Hne.
    apply negb_false_iff, String.eqb_eq in Hk. done.
Qed.

Lemma linkedb_spec (s : Store) : linkedb s = true ↔ linked s.
Proof.
  unfold linkedb, linked. rewrite forallb_forall, map_Forall_to_list, Forall_forall.
  split.
  - intros H [id t] Hin. apply link_okb_spec, (H (id, t)). by apply list_elem_of_In.
  - intros H [id t] Hin. apply link_okb_spec, (H (id, t)). by apply list_elem_of_In.
Qed.

(** C1, as stated, fails three times.  First, the store never checks that a
    session token and the device bound to it belong to the same account:
    binding a device of account A to a token of account B is accepted, and
    leaves that token naming a device its owning account does not have.
    Second, [updateDevice] unlinks the device's old token before the
    Duplicate check: when it fails with Duplicate the old token has lost its
    deviceKey while the device still names it.  Third, [createAccount]
    empties the devices of the object it is handed before it checks
    anything: handed the object of a stored account again, it rejects with
    Duplicate after having removed the account's devices, while the session
    token that was bound to one of them still names it. *)
Lemma device_link_counterexample :
  (let s := run sample_utf8 cross_link_ops empty_store in
   reachable sample_utf8 s ∧ ¬ linked s) ∧
  (let s := run sample_utf8 two_links_ops empty_store in
   let r := updateDevice uidA devD (bind_to tok2) s in
   bound s uidA devD tok1 ∧
   r.1 = Reject Duplicate ∧
   (sessionTokens r.2 !! hex tok1) ≫= st_deviceKey = None ∧
   (account_at r.2 (hex uidA) ≫= (λ a, devices a !! hex devD))
     ≫= dev_sessionTokenId = Some tok1 ∧
   r.2 ≠ s) ∧
  (let s := run sample_utf8 own_link_ops empty_store in
   let r := createAccount uidA 0 s in
   binds_own_sessions sample_utf8 same_object_again_ops empty_store = true ∧
   linked s ∧ bound s uidA devD tok1 ∧
   r.1 = Reject Duplicate ∧
   (sessionTokens r.2 !! hex tok1) ≫= st_deviceKey = Some (hex devD) ∧
   (devices <$> account_at r.2 (hex uidA)) = Some ∅ ∧
   reachable sample_utf8 r.2 ∧ ¬ linked r.2).
Proof.
  split_and!.
  - intros s. split; [apply reachable_run; constructor|].
    intros Hl%linkedb_spec. vm_compute in Hl. discriminate.
  - intros s r. split_and!.
    + vm_compute. eexists _, _, _. by split_and!.
    + vm_compute. reflexivity.
    + vm_compute. reflexivity.
    + vm_compute. reflexivity.
    + intros Heq.
      assert ((sessionTokens r.2 !! hex tok1) ≫= st_deviceKey
              = (sessionTokens s !! hex tok1) ≫= st_deviceKey) as H
        by (by rewrite Heq).
      vm_compute in H. discriminate.
  - intros s r. split_and!.
    + vm_compute. reflexivity.
    + apply linkedb_spec. vm_compute. reflexivity.
    + vm_compute. eexists _, _, _. by split_and!.
    + vm_compute. reflexivity.
    + vm_compute. reflexivity.
    + vm_compute. reflexivity.
    + apply (reachable_step sample_utf8 (CreateAccount uidA 0)).
      apply reachable_run. constructor.
    + intros Hl%linkedb_spec. vm_compute in Hl. discriminate.
Qed.

(** C1, amended.  In every store reached through operations in which
    [createDevice] and [updateDevice] resolve a session token of the account
    they are called for, and [createAccount] is handed an object that is not
    in the store, each session token whose deviceKey is set names a device
    of its owning account, and that device's sessionTokenId is the token's
    identifier; and every such operation keeps it so.  [createDevice] and
    [updateDeviceRecord] leave the store unchanged when they reject.  When
    [createDevice] or [updateDevice] succeeds with a payload naming a stored
    session token, both sides are set: the device names the token and the
    token names the device. *)
Theorem device_link_consistency (utf8 : Buffer → string) (s : Store) :
  reachable_own utf8 s →
  linked s ∧
  (∀ op, well_used op s = true → linked (exec utf8 op s)) ∧
  (∀ uid deviceId info e,
     (createDevice uid deviceId info s).1 = Reject e →
     (createDevice uid deviceId info s).2 = s) ∧
  (∀ device info deviceKey e,
     (updateDeviceRecord device info deviceKey s).1 = Reject e →
     (updateDeviceRecord device info deviceKey s).2 = s) ∧
  (∀ uid deviceId info id t,
     di_sessionTokenId info = Some id → id ≠ [] →
     sessionTokens s !! hex id = Some t →
     ((createDevice uid deviceId info s).1 = Resolve () →
      bound (createDevice uid deviceId info s).2 uid deviceId id) ∧
     ((updateDevice uid deviceId info s).1 = Resolve () →
      bound (updateDevice uid deviceId info s).2 uid deviceId id)).
Proof.
  intros Hreach.
  pose proof (reachable_own_linked utf8 s Hreach) as [Hs Hun].
  split_and!.
  - done.
  - intros op Hop. by apply exec_linked.
  - intros uid deviceId info e. apply createDevice_Reject.
  - intros device info dk e He. by apply updateDeviceRecord_Reject in He as [_ ?].
  - intros uid deviceId info id t Hid Hne Ht. split.
    + by apply createDevice_binds with t.
    + by apply updateDevice_binds with t.
Qed.

(** Account A with a device bound to its own session token. *)
Lemma device_link_consistency_witness :
  let s := run sample_utf8 own_link_ops empty_store in
  bound s uidA devD tok1 ∧ linked s.
Proof.
  intros s. split.
  - vm_compute. eexists _, _, _. by split_and!.
  - apply (device_link_consistency sample_utf8 s).
    apply reachable_own_run; [vm_compute; reflexivity | constructor].
Defined.
